(** * Multi-spacecraft alignment and planar-front reconstruction

    A shallow embedding of the core of [model_time_range.py]: the plane
    solver [solve_plane], the angle gate of [dtw_plane.pred_earth], the
    offset extraction and re-indexing of [dtw_plane.dtw], and the
    re-windowing loop of [dtw_plane.iterate_dtw].

    Conventions.
    - Time stamps and time deltas are pandas [datetime64[ns]] and
      [timedelta64[ns]] values: integers counting nanoseconds, modelled
      as [Z].
    - The geometry (positions, normals, speeds, angles) is numpy double
      arithmetic.  It is modelled over the real numbers [R], which has the
      square root and the arc cosine the code calls; rounding is not
      modelled.  Where the code divides by zero the result is the
      infinity or the NaN that numpy gives, not a real number.
    - The sample values handed to the aligner are doubles that may be
      missing; they are modelled as [option Q], [None] standing for NaN.
    - Routines of imported libraries (LAPACK on a singular matrix,
      pandas and matplotlib conversions, numpy percentiles, [mlpy]) are
      parameters.  The aligner [md.dtw_path_single] belongs to the
      repository but is not among the sources; where a statement needs
      it, it is modelled from the specification, in [Aligner]. *)

From Stdlib Require Import Reals Lra Psatz.
From Stdlib Require Import ZArith QArith Qminmax Lia.
From Stdlib Require Import List Bool String Ascii.
Import ListNotations.

(** ** Results of calls that may raise *)

Inductive exn : Type :=
| LinAlgError      (* numpy.linalg.LinAlgError: singular matrix *)
| IndexError       (* positional index out of bounds *)
| KeyError         (* dictionary key not present *)
| NameError        (* name read before it is bound *)
| ValueError       (* lengths that do not match, a time that is NaT *)
| TypeError        (* a value of the wrong kind *)
| AlignmentError   (* the aligner refuses a series *)
| ExternalError.   (* raised inside an imported routine *)

Inductive result (A : Type) : Type :=
| Ok (a : A)
| Raise (e : exn).

Arguments Ok {A} a.
Arguments Raise {A} e.

Definition bind {A B : Type} (r : result A) (k : A -> result B) : result B :=
  match r with
  | Ok a => k a
  | Raise e => Raise e
  end.

Notation "x <- r ;; k" := (bind r (fun x => k))
  (at level 61, r at next level, right associativity).

(** ** The planar front solver *)

Module Linalg.
Local Open Scope R_scope.

Record vec3 : Type := mkvec { vx : R; vy : R; vz : R }.

(** A 3x3 matrix by rows: one row per spacecraft. *)
Record mat3 : Type := mkmat { row1 : vec3; row2 : vec3; row3 : vec3 }.

Definition vzero : vec3 := mkvec 0 0 0.

Definition dot (a b : vec3) : R := vx a * vx b + vy a * vy b + vz a * vz b.

Definition vsub (a b : vec3) : vec3 :=
  mkvec (vx a - vx b) (vy a - vy b) (vz a - vz b).

Definition vscale (k : R) (a : vec3) : vec3 :=
  mkvec (k * vx a) (k * vy a) (k * vz a).

Definition vdiv (a : vec3) (k : R) : vec3 :=
  mkvec (vx a / k) (vy a / k) (vz a / k).

(** [np.linalg.norm] of a vector: the square root of [dot(x, x)]. *)
Definition norm (a : vec3) : R := sqrt (dot a a).

Definition mulv (m : mat3) (x : vec3) : vec3 :=
  mkvec (dot (row1 m) x) (dot (row2 m) x) (dot (row3 m) x).

Definition det3 (m : mat3) : R :=
  let (a, b, c) := row1 m in
  let (d, e, f) := row2 m in
  let (g, h, i) := row3 m in
  a * (e * i - f * h) - b * (d * i - f * g) + c * (d * h - e * g).

(** The matrix [m] with column [k] replaced by [t]. *)
Definition replace_col (k : nat) (m : mat3) (t : vec3) : mat3 :=
  let put (r : vec3) (v : R) :=
    match k with
    | O => mkvec v (vy r) (vz r)
    | S O => mkvec (vx r) v (vz r)
    | _ => mkvec (vx r) (vy r) v
    end in
  mkmat (put (row1 m) (vx t)) (put (row2 m) (vy t)) (put (row3 m) (vz t)).

(** A double that need not be finite: a real number, an infinity (of
    either sign) or NaN. *)
Inductive num : Type :=
| Fin (x : R)
| Inf
| Nan.

(** A normal vector: three real components, or NaN in every place. *)
Inductive normal : Type :=
| Normal (v : vec3)
| NanNormal.

(** Division of doubles as numpy does it: no exception, an infinity for
    a nonzero number over zero and NaN for zero over zero. *)
Definition ndiv (a b : num) : num :=
  match a, b with
  | Nan, _ => Nan
  | _, Nan => Nan
  | Inf, Inf => Nan
  | Inf, Fin _ => Inf
  | Fin _, Inf => Fin 0
  | Fin x, Fin y =>
      if Req_dec_T y 0 then (if Req_dec_T x 0 then Nan else Inf)
      else Fin (x / y)
  end.

(** The product of a normal with a vector of real numbers. *)
Definition ndot (vn : normal) (a : vec3) : num :=
  match vn with
  | Normal v => Fin (dot v a)
  | NanNormal => Nan
  end.

Section Solver.

(** What LAPACK's factorisation gives for a matrix that is singular in
    exact arithmetic: [LinAlgError] when it meets a pivot that is exactly
    zero, and the numbers its rounded elimination ends with otherwise.
    Which of the two happens depends on the rounding, which is not
    modelled. *)
Variable lapack_singular : mat3 -> vec3 -> result vec3.

(** [np.linalg.solve(p, t)]: for a nonsingular [p] the solution of
    [p x = t]. *)
Definition linalg_solve (p : mat3) (t : vec3) : result vec3 :=
  if Req_dec_T (det3 p) 0 then lapack_singular p t
  else Ok (mkvec (det3 (replace_col 0 p t) / det3 p)
                 (det3 (replace_col 1 p t) / det3 p)
                 (det3 (replace_col 2 p t) / det3 p)).

(** [solve_plane(p, t)] returns [(vna, vn, vm)].  For a solved vector of
    norm zero the two divisions by zero give a normal of NaN and an
    infinite speed. *)
Definition solve_plane (p : mat3) (t : vec3) : result (vec3 * normal * num) :=
  vna <- linalg_solve p t ;;
  if Req_dec_T (norm vna) 0 then Ok (vna, NanNormal, Inf)
  else Ok (vna, Normal (vdiv vna (norm vna)), Fin (1 / norm vna)).

End Solver.

End Linalg.

(** ** The Earth-arrival prediction loop *)

Module Predict.
Import Linalg.
Local Open Scope R_scope.

(** The five lists [event_dict[esp+'_time']], [..'_plsm'], [..'_velo'],
    [..'_dist'] and [..'_nvec'] kept for one near-Earth spacecraft. *)
Record craft_store : Type := mkstore {
  st_time : list num;
  st_plsm : list R;
  st_velo : list num;
  st_dist : list num;
  st_nvec : list normal
}.

(** [event_dict['event_k']]: the gathered offsets and positions, and once
    the gate is passed the plane used and the anchor position. *)
Record event_entry : Type := mkentry {
  ee_tvals : list R;
  ee_pos : list vec3;
  ee_plane : option (normal * num);
  ee_wind : option vec3
}.

Record event_dict : Type := mkdict {
  stores : string -> craft_store;
  entries : list (nat * event_entry)
}.

(** What the loop looks up for one near-Earth spacecraft at one instant:
    its position, and whether its own values let the messages be written
    (its matched observation time can be formatted, its offset is a time
    delta): the part of the [try]/[except: continue] that does not depend
    on the plane. *)
Record target : Type := mktarget {
  tg_pos : vec3;
  tg_fmt_ok : bool
}.

(** What the loop gathers for one instant [i] of the trainer's index:
    the trainer speed, and per spacecraft (trainer first) the offset in
    seconds and the position at the matched time. *)
Record event : Type := mkevent {
  ev_time : Z;
  ev_speed : R;
  ev_tvals : list R;
  ev_pos : list vec3;
  ev_target : string -> target
}.

Definition empty_store : craft_store := mkstore [] [] [] [] [].

(** The dictionary after the initialisation loop of [pred_earth]. *)
Definition init_dict : event_dict := mkdict (fun _ => empty_store) [].

Definition set_store (d : event_dict) (esp : string) (s : craft_store) : event_dict :=
  mkdict (fun k => if String.eqb k esp then s else stores d k) (entries d).

(** [event_dict[cur]] is written: the newest entry of a key stands before
    the older ones. *)
Definition set_entry (d : event_dict) (cur : nat) (e : event_entry) : event_dict :=
  mkdict (stores d) ((cur, e) :: entries d).

(** Python's [l[-1]]. *)
Definition last_item {A : Type} (l : list A) : result A :=
  match rev l with
  | x :: _ => Ok x
  | [] => Raise IndexError
  end.

(** [pm]: rows [pos[k] - pos[0]] for [k = 1, 2, 3]. *)
Definition position_matrix (pos : list vec3) : result mat3 :=
  match pos with
  | p0 :: p1 :: p2 :: p3 :: _ => Ok (mkmat (vsub p1 p0) (vsub p2 p0) (vsub p3 p0))
  | [] => Raise IndexError
  | _ => Raise LinAlgError
  end.

(** [tm]: [tvals[1:4]]. *)
Definition time_vector (t : list R) : result vec3 :=
  match t with
  | _ :: t1 :: t2 :: t3 :: _ => Ok (mkvec t1 t2 t3)
  | _ => Raise LinAlgError
  end.

Definition degrees (x : R) : R := x * 180 / PI.

Definition sunward : vec3 := mkvec (-1) 0 0.

(** [theta = np.degrees(np.arccos(float(vn.T.dot([-1.,0.,0.]))))] for a
    normal of real numbers. *)
Definition theta (vn : vec3) : R := degrees (acos (dot vn sunward)).

(** [theta > cut_deg]; for a normal of NaN [theta] is NaN and the
    comparison is False. *)
Definition exceeds (cut_deg : R) (vn : normal) : bool :=
  match vn with
  | Normal v => if Rlt_dec cut_deg (theta v) then true else false
  | NanNormal => false
  end.

Definition dtw_skp : Z := 45 * 60 * 1000000000.

(** The value of the name [esp] when the gate reads it: the loop variable
    left by the loops over [earth_craft], their last element. *)
Definition leaked_esp (earth_craft : list string) : result string :=
  match rev earth_craft with
  | e :: _ => Ok e
  | [] => Raise NameError
  end.

(** [(i-dtw_stt < dtw_skp) | (dtw_end-i < dtw_skp)]. *)
Definition skipped (dtw_stt dtw_end i : Z) : bool :=
  ((i - dtw_stt <? dtw_skp) || (dtw_end - i <? dtw_skp))%Z%bool.

Section PredEarth.

(** The solver on a matrix that is singular in exact arithmetic. *)
Variable lapack_singular : mat3 -> vec3 -> result vec3.
(** [pd.to_timedelta(x, unit='s')], in nanoseconds; [None] is NaT. *)
Variable to_timedelta : num -> result (option Z).
(** Whether ['{0:%Y/%m/%d %H:%M:%S}'.format] accepts the time. *)
Variable formats : option Z -> bool.
(** [mdates.date2num]. *)
Variable date2num : option Z -> result num.

Variable cut_deg : R.
Variable earth_craft : list string.
Variables dtw_stt dtw_end : Z.

(** One pass of the inner loop [for esp in self.earth_craft] for an event
    whose plane is [(vn, vm)] and whose anchor is [p]. *)
Definition predict_one (ev : event) (vn : normal) (vm : num) (p : vec3)
    (d : event_dict) (esp : string) : result event_dict :=
  let tg := ev_target ev esp in
  let themis_d := ndot vn (vsub (tg_pos tg) p) in
  let themis_dt := ndiv themis_d vm in
  dt <- to_timedelta themis_dt ;;
  let themis_pr := option_map (Z.add (ev_time ev)) dt in
  if formats themis_pr && tg_fmt_ok tg then
    th_xval <- date2num themis_pr ;;
    let s := stores d esp in
    Ok (set_store d esp
          (mkstore (st_time s ++ [th_xval])
                   (st_plsm s ++ [ev_speed ev])
                   (st_velo s ++ [vm])
                   (st_dist s ++ [themis_d])
                   (st_nvec s ++ [vn])))
  else Ok d.

Fixpoint predict_targets (ev : event) (vn : normal) (vm : num) (p : vec3)
    (l : list string) (d : event_dict) : result event_dict :=
  match l with
  | [] => Ok d
  | esp :: rest =>
      d' <- predict_one ev vn vm p d esp ;;
      predict_targets ev vn vm p rest d'
  end.

(** The part of the body after the gate: record the plane and predict. *)
Definition emit (j : nat) (ev : event) (vn : normal) (vm : num) (d : event_dict)
    : result event_dict :=
  p <- match ev_pos ev with p0 :: _ => Ok p0 | [] => Raise IndexError end ;;
  let d1 := set_entry d (S j)
              (mkentry (ev_tvals ev) (ev_pos ev) (Some (vn, vm)) (Some p)) in
  predict_targets ev vn vm p earth_craft d1.

(** The body of [for j,i in enumerate(t_mat.index)].  The name [esp] read
    by the gate is the loop variable left by the earlier loops over
    [earth_craft]: its last element. *)
Definition pred_event (j : nat) (ev : event) (d : event_dict) : result event_dict :=
  if skipped dtw_stt dtw_end (ev_time ev) then Ok d
  else
    let d0 := set_entry d (S j) (mkentry (ev_tvals ev) (ev_pos ev) None None) in
    pm <- position_matrix (ev_pos ev) ;;
    tm <- time_vector (ev_tvals ev) ;;
    sol <- solve_plane lapack_singular pm tm ;;
    let '(_, vn, vm) := sol in
    esp <- leaked_esp earth_craft ;;
    let velo := st_velo (stores d0 esp) in
    if exceeds cut_deg vn && (0 <? List.length velo)%nat then
      vm' <- last_item velo ;;
      vn' <- last_item (st_nvec (stores d0 esp)) ;;
      emit j ev vn' vm' d0
    else if exceeds cut_deg vn && (List.length velo <? 1)%nat then
      Ok d0
    else
      emit j ev vn vm d0.

Fixpoint pred_loop (j : nat) (evs : list event) (d : event_dict) : result event_dict :=
  match evs with
  | [] => Ok d
  | ev :: rest => d' <- pred_event j ev d ;; pred_loop (S j) rest d'
  end.

Definition pred_earth (evs : list event) : result event_dict :=
  pred_loop 0 evs init_dict.

End PredEarth.

End Predict.

(** ** Strings, data frames and the plasma dictionary *)

Module Frame.

(** [s.lower()] on ASCII. *)
Definition lower_ascii (c : ascii) : ascii :=
  let n := nat_of_ascii c in
  if ((65 <=? n) && (n <=? 90))%nat then ascii_of_nat (n + 32) else c.

Fixpoint lower (s : string) : string :=
  match s with
  | EmptyString => EmptyString
  | String c s' => String (lower_ascii c) (lower s')
  end.

(** [pat in s]. *)
Fixpoint contains (pat s : string) : bool :=
  match s with
  | EmptyString => prefix pat EmptyString
  | String _ s' => prefix pat s || contains pat s'
  end.

(** [s.replace(pat, rep)] for a non-empty [pat]; [skip] counts the
    characters of a match still to be dropped. *)
Fixpoint replace_from (pat rep : string) (skip : nat) (s : string) : string :=
  match s with
  | EmptyString => EmptyString
  | String c s' =>
      match skip with
      | S n => replace_from pat rep n s'
      | O =>
          if prefix pat s
          then (rep ++ replace_from pat rep (String.length pat - 1) s')%string
          else String c (replace_from pat rep 0 s')
      end
  end.

Definition replace (pat rep s : string) : string := replace_from pat rep 0 s.

(** One row of a data frame: the numeric columns by name ([None] is NaN)
    and the three columns [dtw] adds. *)
Record row : Type := mkrow {
  cols : string -> option Q;
  offsets : option Z;
  train_ind : option nat;
  match_ind : option nat
}.

(** A data frame: its rows in order, each with its index label, a time
    stamp in nanoseconds. *)
Definition frame : Type := list (Z * row).

Definition index (f : frame) : list Z := map fst f.

Definition nan_row : row := mkrow (fun _ => None) None None None.

(** [f[~f.index.duplicated(keep='first')]]. *)
Fixpoint drop_duplicated (seen : list Z) (f : frame) : frame :=
  match f with
  | [] => []
  | (t, r) :: rest =>
      if existsb (Z.eqb t) seen then drop_duplicated seen rest
      else (t, r) :: drop_duplicated (t :: seen) rest
  end.

Fixpoint has_duplicates (l : list Z) : bool :=
  match l with
  | [] => false
  | t :: rest => existsb (Z.eqb t) rest || has_duplicates rest
  end.

(** [l[i]] by position. *)
Definition item {A : Type} (l : list A) (i : nat) : result A :=
  match nth_error l i with
  | Some x => Ok x
  | None => Raise IndexError
  end.

Fixpoint traverse {A B : Type} (f : A -> result B) (l : list A) : result (list B) :=
  match l with
  | [] => Ok []
  | x :: rest => y <- f x ;; ys <- traverse f rest ;; Ok (y :: ys)
  end.

(** [f.iloc[ix, :].index]. *)
Definition iloc_index (f : frame) (ix : list nat) : result (list Z) :=
  traverse (item (index f)) ix.

(** The row labelled [t], or a row of NaN. *)
Fixpoint row_at (f : frame) (t : Z) : row :=
  match f with
  | [] => nan_row
  | (t', r) :: rest => if Z.eqb t' t then r else row_at rest t
  end.

(** [f.reindex(labels)]; pandas refuses when the index of [f] has
    duplicates. *)
Definition reindex (f : frame) (labels : list Z) : result frame :=
  if has_duplicates (index f) then Raise ValueError
  else Ok (map (fun t => (t, row_at f t)) labels).

(** Element-wise [a - b] of two indexes of equal length. *)
Fixpoint sub_index (a b : list Z) : result (list Z) :=
  match a, b with
  | [], [] => Ok []
  | x :: a', y :: b' => r <- sub_index a' b' ;; Ok ((x - y)%Z :: r)
  | _, _ => Raise ValueError
  end.

(** [f.index = labels]: as many labels as rows. *)
Fixpoint set_index (f : frame) (labels : list Z) : result frame :=
  match f, labels with
  | [], [] => Ok []
  | (_, r) :: f', t :: l' => g <- set_index f' l' ;; Ok ((t, r) :: g)
  | _, _ => Raise ValueError
  end.

(** [f[col] = values], a column of as many values as rows. *)
Fixpoint set_column {A : Type} (upd : row -> A -> row) (f : frame) (v : list A)
    : result frame :=
  match f, v with
  | [], [] => Ok []
  | (t, r) :: f', x :: v' => g <- set_column upd f' v' ;; Ok ((t, upd r x) :: g)
  | _, _ => Raise ValueError
  end.

Definition with_offsets (r : row) (o : Z) : row :=
  mkrow (cols r) (Some o) (train_ind r) (match_ind r).
Definition with_train_ind (r : row) (i : nat) : row :=
  mkrow (cols r) (offsets r) (Some i) (match_ind r).
Definition with_match_ind (r : row) (i : nat) : row :=
  mkrow (cols r) (offsets r) (train_ind r) (Some i).
Definition with_col (r : row) (name : string) (v : option Q) : row :=
  mkrow (fun c => if String.eqb c name then v else cols r c)
        (offsets r) (train_ind r) (match_ind r).

(** [series.ffill()]: a NaN takes the last value before it. *)
Fixpoint ffill_from (prev : option Q) (l : list (option Q)) : list (option Q) :=
  match l with
  | [] => []
  | Some v :: rest => Some v :: ffill_from (Some v) rest
  | None :: rest => prev :: ffill_from prev rest
  end.

Definition ffill (l : list (option Q)) : list (option Q) := ffill_from None l.

(** [series.bfill()]: a NaN takes the next value after it. *)
Definition bfill (l : list (option Q)) : list (option Q) := rev (ffill (rev l)).

(** [f[name].ffill().bfill().values]. *)
Definition filled_values (name : string) (f : frame) : list (option Q) :=
  bfill (ffill (map (fun tr => cols (snd tr) name) f)).

(** What the dictionary [plsm] holds: frames, and the bulk offsets
    [iterate_dtw] adds ([None] is NaT). *)
Inductive value : Type :=
| VFrame (f : frame)
| VDelta (d : option Z).

(** A dictionary in insertion order. *)
Definition dict : Type := list (string * value).

Definition keys (d : dict) : list string := map fst d.

Fixpoint lookup (d : dict) (k : string) : result value :=
  match d with
  | [] => Raise KeyError
  | (k', v) :: rest => if String.eqb k' k then Ok v else lookup rest k
  end.

Fixpoint insert (k : string) (v : value) (d : dict) : dict :=
  match d with
  | [] => [(k, v)]
  | (k', v') :: rest =>
      if String.eqb k' k then (k, v) :: rest else (k', v') :: insert k v rest
  end.

Definition lookup_frame (d : dict) (k : string) : result frame :=
  v <- lookup d k ;;
  match v with
  | VFrame f => Ok f
  | VDelta _ => Raise TypeError
  end.

Definition lookup_delta (d : dict) (k : string) : result (option Z) :=
  v <- lookup d k ;;
  match v with
  | VDelta x => Ok x
  | VFrame _ => Raise TypeError
  end.

End Frame.

(** ** The alignment pass [dtw_plane.dtw] *)

Module Dtw.
Import Frame.
Local Open Scope Q_scope.

(** A warping path as the aligners return it: the index array into the
    first series and the index array into the second. *)
Definition path : Type := (list nat * list nat)%type.

(** [path[::-1]]. *)
Definition reversed (p : path) : path := (snd p, fst p).

(** A double that need not be finite: a number, an infinity (of either
    sign) or NaN. *)
Inductive qnum : Type :=
| QFin (q : Q)
| QInf
| QNan.

(** A float divided by a numpy float: no exception, an infinity for a
    nonzero number over zero and NaN for zero over zero. *)
Definition qdiv (a b : Q) : qnum :=
  if Qeq_bool b 0 then (if Qeq_bool a 0 then QNan else QInf)
  else QFin (a / b).

(** [penalty_r1 = 60.*pr/np.min([dt1,dt2])] and
    [penalty_r2 = 60.*pr/np.max([dt1,dt2])]. *)
Definition penalty_radii (pr dt1 dt2 : Q) : qnum * qnum :=
  (qdiv (60 * pr) (Qmin dt1 dt2), qdiv (60 * pr) (Qmax dt1 dt2)).

(** The radius is the number [q]. *)
Definition radius_is (r : qnum) (q : Q) : Prop :=
  match r with
  | QFin x => x == q
  | _ => False
  end.

(** The arguments [dtw] prepares for [md.dtw_path_single]. *)
Record align_call : Type := mkcall {
  a_x1 : list (option Q);
  a_x2 : list (option Q);
  a_r1 : qnum;
  a_r2 : qnum;
  a_flipped : bool
}.

(** The values [par] takes: [None] (or a float), one column name, or a
    list of column names. *)
Inductive par_value : Type :=
| PNone
| PStr (s : string)
| PList (l : list string).

Definition choose_par (k : string) (par : par_value) : list string :=
  if String.eqb (lower k) "soho" then ["SPEED"%string]
  else match par with
       | PNone => ["Bx"; "By"; "Bz"]%string
       | PStr s => [s]
       | PList l => l
       end.

(** The penalty announced for the columns [par]; it stays what it was
    when [par] names neither the speed nor a magnetic component. *)
Definition choose_penalty (speed_pen mag_pen : Q) (par : list string)
    (pen : option Q) : option Q :=
  if existsb (String.eqb "SPEED") par then Some speed_pen
  else if existsb (contains "B") par then Some mag_pen
  else pen.

(** [p_mat.SPEED = p_mat.SPEED - off_speed]. *)
Definition shift_speed (p_mat : frame) (off_speed : option Q) : frame :=
  map (fun tr =>
         let r := snd tr in
         let v := match cols r "SPEED", off_speed with
                  | Some x, Some o => Some (x - o)
                  | _, _ => None
                  end in
         (fst tr, with_col r "SPEED" v)) p_mat.

(** Lines 723-737: the offsets of a path and the comparison frame
    re-indexed by them. *)
Definition offset_frame (t_mat p_mat : frame) (pth : path) : result frame :=
  p_idx <- iloc_index p_mat (snd pth) ;;
  t_idx <- iloc_index t_mat (fst pth) ;;
  off_sol <- sub_index p_idx t_idx ;;
  b1 <- reindex p_mat p_idx ;;
  new_idx <- sub_index (index b1) off_sol ;;
  b2 <- set_index b1 new_idx ;;
  b3 <- set_column with_offsets b2 off_sol ;;
  b4 <- set_column with_train_ind b3 (fst pth) ;;
  set_column with_match_ind b4 (snd pth).

(** A path that [offset_frame] accepts: as many indices on each side, all
    of them positions of the frame they index. *)
Definition path_fits (t_mat p_mat : frame) (pth : path) : Prop :=
  List.length (fst pth) = List.length (snd pth) /\
  Forall (fun i => (i < List.length t_mat)%nat) (fst pth) /\
  Forall (fun j => (j < List.length p_mat)%nat) (snd pth).

(** [t_mat['offsets'] = pd.to_timedelta(0)]. *)
Definition zero_offsets (t_mat : frame) : frame :=
  map (fun tr => (fst tr, with_offsets (snd tr) 0%Z)) t_mat.

Section Pass.

(** [md.dtw_path_single(x1, x2, r1, r2, 500.0, 100.00, 1.10, 0)]. *)
Variable dtw_path_single :
  list (option Q) -> list (option Q) -> qnum -> qnum -> Q -> Q -> Q -> Z -> result path.
(** [mlpy.dtw_std(x, y, dist_only=False)], its path. *)
Variable dtw_std : list (option Q) -> list (option Q) -> result path.
(** [float(np.median(np.diff(index))*1.e-9)]: the median sample interval
    of an index, in seconds. *)
Variable median_interval : list Z -> Q.
(** [np.percentile(x, [5, 95])]. *)
Variable percentile : list (option Q) -> list Q -> result (list (option Q)).
(** Lines 631-635: of several columns, those with the largest range of the
    trainer around the first event. *)
Variable largest_range : frame -> list string -> result (list string).
(** Lines 642-665: the speed offset between a THEMIS frame and the
    trainer. *)
Variable speed_offset : frame -> frame -> list string -> result (option Q).

Variable craft : list string.
Variable trainer : string.
Variable penalty : bool.
Variables speed_pen mag_pen : Q.

(** Lines 683-710: the filled values of the column, the swap when the
    comparison array is the longer, and the two radii. *)
Definition align_args (pr : Q) (t_mat p_mat : frame) (par0 : string) : align_call :=
  let x1 := filled_values par0 t_mat in
  let x2 := filled_values par0 p_mat in
  let flipped := (List.length x1 <? List.length x2)%nat in
  let dt1 := median_interval (index t_mat) in
  let dt2 := median_interval (index p_mat) in
  let r := penalty_radii pr dt1 dt2 in
  if flipped then mkcall x2 x1 (fst r) (snd r) true
  else mkcall x1 x2 (fst r) (snd r) false.

(** Lines 683-715: the percentiles of the two arrays, which are computed
    and not used, the call, and the path turned back when the arrays were
    swapped. *)
Definition align_penalty (pr : Q) (t_mat p_mat : frame) (par0 : string) : result path :=
  _ <- percentile (filled_values par0 t_mat) [5; 95] ;;
  _ <- percentile (filled_values par0 p_mat) [5; 95] ;;
  let a := align_args pr t_mat p_mat par0 in
  pth <- dtw_path_single (a_x1 a) (a_x2 a) (a_r1 a) (a_r2 a) 500 100 (11 # 10) 0 ;;
  Ok (if a_flipped a then reversed pth else pth).

Definition first_par (par : list string) : result string :=
  match par with
  | p :: _ => Ok p
  | [] => Raise IndexError
  end.

(** Lines 669-721. *)
Definition warp (pr : Q) (t_mat p_mat : frame) (par : list string)
    (pen : option Q) : result (path * option Q) :=
  if penalty then
    let pen' := choose_penalty speed_pen mag_pen par pen in
    _ <- match pen' with Some _ => Ok tt | None => Raise NameError end ;;
    par0 <- first_par par ;;
    pth <- align_penalty pr t_mat p_mat par0 ;;
    Ok (pth, pen')
  else
    par0 <- first_par par ;;
    pth <- dtw_std (filled_values par0 t_mat) (filled_values par0 p_mat) ;;
    Ok (pth, pen).

(** What the loop over [craft[1:]] carries: the trainer frame, the
    current [par], the penalty last announced and the dictionary. *)
Record loop_state : Type := mkstate {
  s_t_mat : frame;
  s_par : par_value;
  s_pen : option Q;
  s_plsm : dict
}.

(** While the loop runs the trainer frame stays the frame stored under
    the trainer's name, and keeps its index. *)
Definition trainer_kept (trainer : string) (idx : list Z) (st : loop_state) : Prop :=
  lookup_frame (s_plsm st) trainer = Ok (s_t_mat st) /\ index (s_t_mat st) = idx.

(** The body of [for k in craft[1:]].  The THEMIS speed correction
    changes [p_mat] in place, so the frame stored under [k] changes with
    it, and so does the trainer frame when [k] is the trainer itself. *)
Definition dtw_craft (pr : Q) (k : string) (st : loop_state) : result loop_state :=
  p_mat <- lookup_frame (s_plsm st) k ;;
  let par1 := choose_par k (s_par st) in
  par2 <- (if (1 <? List.length par1)%nat then largest_range (s_t_mat st) par1
           else Ok par1) ;;
  p_mat' <- (if contains "themis" (lower k)
             then off <- speed_offset (s_t_mat st) p_mat par2 ;;
                  Ok (shift_speed p_mat off)
             else Ok p_mat) ;;
  let plsm1 := insert k (VFrame p_mat') (s_plsm st) in
  let t_mat := if String.eqb k trainer then p_mat' else s_t_mat st in
  w <- warp pr t_mat p_mat' par2 (s_pen st) ;;
  b_mat <- offset_frame t_mat p_mat' (fst w) ;;
  Ok (mkstate t_mat (PList par2) (snd w)
        (insert (k ++ "_offset") (VFrame b_mat) plsm1)).

Fixpoint dtw_loop (pr : Q) (ks : list string) (st : loop_state) : result loop_state :=
  match ks with
  | [] => Ok st
  | k :: rest => st' <- dtw_craft pr k st ;; dtw_loop pr rest st'
  end.

(** Lines 584-588: the frames of [craft], each without its duplicated
    index labels. *)
Fixpoint subset (self_plsm : dict) (cs : list string) (plsm : dict) : result dict :=
  match cs with
  | [] => Ok plsm
  | i :: rest =>
      f <- lookup_frame self_plsm i ;;
      subset self_plsm rest (insert i (VFrame (drop_duplicated [] f)) plsm)
  end.

(** [dtw(pr)]: the new value of [self.plsm].  The trainer frame is one
    object, stored under the trainer's name and, with its column of zero
    offsets, under its offset key. *)
Definition dtw (pr : Q) (self_par : par_value) (self_plsm : dict) : result dict :=
  plsm0 <- subset self_plsm craft [] ;;
  t_mat <- lookup_frame plsm0 trainer ;;
  st <- dtw_loop pr (tl craft) (mkstate t_mat self_par None plsm0) ;;
  let t_mat' := zero_offsets (s_t_mat st) in
  Ok (insert (trainer ++ "_offset") (VFrame t_mat')
        (insert trainer (VFrame t_mat') (s_plsm st))).

End Pass.

End Dtw.

(** ** The two-pass refinement [dtw_plane.iterate_dtw] *)

Module Refine.
Import Frame.
Local Open Scope Z_scope.

Fixpoint insert_sorted (x : Z) (l : list Z) : list Z :=
  match l with
  | [] => [x]
  | y :: rest => if x <=? y then x :: l else y :: insert_sorted x rest
  end.

Definition sort (l : list Z) : list Z := fold_right insert_sorted [] l.

(** [Series.median()] of time deltas: NaT of nothing, the middle value,
    or the mean of the two middle values cut to a whole nanosecond. *)
Definition median (l : list Z) : option Z :=
  let s := sort l in
  let n := List.length s in
  match n with
  | O => None
  | _ =>
      if Nat.even n
      then match nth_error s (n / 2 - 1), nth_error s (n / 2) with
           | Some a, Some b => Some (Z.quot (a + b) 2)
           | _, _ => None
           end
      else nth_error s (n / 2)
  end.

(** [f.loc[lo:hi]] on an index in increasing order: both ends included. *)
Definition loc_slice (lo hi : Z) (f : frame) : frame :=
  filter (fun tr => (lo <=? fst tr) && (fst tr <=? hi)) f.

(** [f['offsets'].median()]: missing offsets are left out. *)
Definition offsets_median (f : frame) : option Z :=
  median (flat_map (fun tr => match offsets (snd tr) with
                              | Some o => [o]
                              | None => []
                              end) f).

(** [pd.to_timedelta('30m')]. *)
Definition pd_p : Z := 30 * 60 * 1000000000.

(** [(pd_e-pd_s)/2.+pd_s]. *)
Definition midpoint (pd_s pd_e : Z) : Z := Z.quot (pd_e - pd_s) 2 + pd_s.

(** A time written with the format [%Y/%m/%d %H:%M:%S] and read again:
    the fraction of the second is dropped. *)
Definition whole_seconds (t : Z) : Z := t / 1000000000 * 1000000000.

Definition craft_of (key : string) : string := replace "_offset" "" key.

(** The keys of the offset frames of the spacecraft that are neither
    near Earth nor the trainer. *)
Definition off_keys (earth_craft : list string) (trainer : string) (plsm : dict)
    : list string :=
  filter (fun i => contains "offset" i
                   && negb (existsb (String.eqb (craft_of i)) earth_craft)
                   && negb (String.eqb (craft_of i) trainer))
         (keys plsm).

(** Lines 506-508: the bulk offset of each key, the median of its offsets
    within 30 minutes of the middle of the window. *)
Fixpoint ave_offsets (pd_s pd_e : Z) (ks : list string) (plsm : dict) : result dict :=
  match ks with
  | [] => Ok plsm
  | i :: rest =>
      f <- lookup_frame plsm i ;;
      let pd_m := midpoint pd_s pd_e in
      let m := offsets_median (loc_slice (pd_m - pd_p) (pd_m + pd_p) f) in
      ave_offsets pd_s pd_e rest
        (insert ("ave_offset_" ++ craft_of i) (VDelta m) plsm)
  end.

Section Iterate.

(** [read_in(k, start_t=..., end_t=..., center=self.center)]. *)
Variable read_in : string -> Z -> Z -> result frame.
(** One alignment pass at a tolerance of [pr] minutes. *)
Variable dtw : Q -> dict -> result dict.

Variable earth_craft : list string.
Variable trainer : string.
Variables pd_s pd_e : Z.

(** Lines 513-519.  The loop variable is [j]; the body reads and assigns
    [i], which the loop before left at its last key. *)
Fixpoint rewindow (ks : list string) (i : string) (plsm : dict) : result dict :=
  match ks with
  | [] => Ok plsm
  | _ :: rest =>
      let i' := craft_of i in
      ave <- lookup_delta plsm ("ave_offset_" ++ i') ;;
      match ave with
      | None => Raise ValueError
      | Some o =>
          f <- read_in i' (whole_seconds (pd_s + o)) (whole_seconds (pd_e + o)) ;;
          rewindow rest i' (insert i' (VFrame f) plsm)
      end
  end.

(** The state of [self.plsm] when the second pass starts. *)
Definition before_fine (pr_1 : Q) (self_plsm : dict) : result dict :=
  plsm1 <- dtw pr_1 self_plsm ;;
  let ks := off_keys earth_craft trainer plsm1 in
  plsm2 <- ave_offsets pd_s pd_e ks plsm1 ;;
  rewindow ks (last ks EmptyString) plsm2.

Definition iterate_dtw (pr_1 pr_2 : Q) (self_plsm : dict) : result dict :=
  plsm3 <- before_fine pr_1 self_plsm ;;
  dtw pr_2 plsm3.

End Iterate.

End Refine.

(** ** The median sample interval *)

Module Cadence.
Import Frame Refine.

(** [np.diff(index)]: the steps from each label to the next. *)
Fixpoint steps (idx : list Z) : list Z :=
  match idx with
  | a :: rest =>
      match rest with
      | b :: _ => (b - a)%Z :: steps rest
      | [] => []
      end
  | [] => []
  end.

(** The whole seconds of a time delta: [td*1.e-9] is again a time delta,
    the product cut to a whole number. *)
Definition seconds_cut (td : Z) : Z := Z.quot td 1000000000.

(** [float(np.median(np.diff(index))*1.e-9)] for an index of two labels
    or more: the median step, a time delta, times [1.e-9] stays a time
    delta and is cut to a whole number, which [float] reads: the whole
    seconds of the median step, 0 for a step under one second.  [short]
    is what the expression gives for an index without a step, which is
    not modelled. *)
Definition median_interval (short : Q) (idx : list Z) : Q :=
  match median (steps idx) with
  | Some m => inject_Z (seconds_cut m)
  | None => short
  end.

End Cadence.

(** ** The aligner *)

Module Aligner.
Import Dtw.

(** Modelled from the spec: the series the aligner refuses.  Section 4.1:
    "signals AlignmentError if either input series is empty or contains
    non-finite values after fill"; the list of errors adds the series of
    a single sample. *)
Definition degenerate (x : list (option Q)) : bool :=
  match x with
  | [] => true
  | [_] => true
  | _ :: _ :: _ =>
      existsb (fun v => match v with None => true | Some _ => false end) x
  end.

(** Modelled from the spec: [md.dtw_path_single] of the module
    [multi_dtw], which is not among the sources.  Section 4.1 of the
    specification: the aligner "signals AlignmentError if either input
    series is empty or contains non-finite values after fill", and
    computes a warping path otherwise; [find_path] is that path, which
    is left open. *)
Definition dtw_path_single
    (find_path : list (option Q) -> list (option Q) -> qnum -> qnum ->
                 Q -> Q -> Q -> Z -> result path)
    (x1 x2 : list (option Q)) (r1 r2 : qnum) (w a e : Q) (z : Z) : result path :=
  if degenerate x1 || degenerate x2 then Raise AlignmentError
  else find_path x1 x2 r1 r2 w a e z.

End Aligner.

(** ** Plane coefficients and the rotation between two directions *)

Module Geometry.
Import Linalg.
Local Open Scope R_scope.

(** The list [[a, b, c, d]] of [solve_coeff]. *)
Record plane_coeff : Type := mkcoeff { pa : R; pb : R; pc : R; pd : R }.

(** [solve_coeff(pi, vn)]: the normal scaled by the norm of the anchor,
    and [d] the negated product of the scaled normal with the anchor. *)
Definition solve_coeff (pi vn : vec3) : plane_coeff :=
  let pm := norm pi in
  let coeff := mkvec (vx vn * pm) (vy vn * pm) (vz vn * pm) in
  mkcoeff (vx coeff) (vy coeff) (vz coeff) (- dot coeff pi).

(** The left-hand side of the plane equation [0 = a*x+b*y+c*z+d]. *)
Definition plane_value (k : plane_coeff) (q : vec3) : R :=
  pa k * vx q + pb k * vy q + pc k * vz q + pd k.

(** [np.cross(a, b)]. *)
Definition cross (a b : vec3) : vec3 :=
  mkvec (vy a * vz b - vz a * vy b)
        (vz a * vx b - vx a * vz b)
        (vx a * vy b - vy a * vx b).

Definition identity3 : mat3 := mkmat (mkvec 1 0 0) (mkvec 0 1 0) (mkvec 0 0 1).

(** The skew-symmetric cross-product matrix of [v]. *)
Definition skew (v : vec3) : mat3 :=
  mkmat (mkvec 0 (- vz v) (vy v))
        (mkvec (vz v) 0 (- vx v))
        (mkvec (- vy v) (vx v) 0).

Definition vadd (a b : vec3) : vec3 :=
  mkvec (vx a + vx b) (vy a + vy b) (vz a + vz b).

Definition madd (m n : mat3) : mat3 :=
  mkmat (vadd (row1 m) (row1 n)) (vadd (row2 m) (row2 n)) (vadd (row3 m) (row3 n)).

Definition mdiv (m : mat3) (k : R) : mat3 :=
  mkmat (vdiv (row1 m) k) (vdiv (row2 m) k) (vdiv (row3 m) k).

Definition transpose (m : mat3) : mat3 :=
  mkmat (mkvec (vx (row1 m)) (vx (row2 m)) (vx (row3 m)))
        (mkvec (vy (row1 m)) (vy (row2 m)) (vy (row3 m)))
        (mkvec (vz (row1 m)) (vz (row2 m)) (vz (row3 m))).

(** [m.dot(n)]. *)
Definition mmul (m n : mat3) : mat3 :=
  let nt := transpose n in
  mkmat (mulv nt (row1 m)) (mulv nt (row2 m)) (mulv nt (row3 m)).

(** [arb_rotation_matrix(a, b)]: [I + vx + vx.dot(vx)/(1+c)] with
    [v = a x b] and [c = a . b]. *)
Definition arb_rotation_matrix (a b : vec3) : mat3 :=
  let v := cross a b in
  let c := dot a b in
  let vx := skew v in
  madd (madd identity3 vx) (mdiv (mmul vx vx) (1 + c)).

End Geometry.

(** ** Reading the spacecraft in: [dtw_plane.init_read] *)

Module Session.
Import Frame.

(** The attributes of a [dtw_plane] object that [init_read] reads and
    writes; times are in nanoseconds. *)
Record session : Type := mksession {
  first : bool;
  craft : list string;
  earth_craft : option (list string);
  plsm : dict;
  nproc : Q;
  start_t : Z;
  end_t : Z;
  pad_earth : Z
}.

Section InitRead.

(** [read_in(k, start_t=..., end_t=..., center=self.center)]; the frame
    it returns has [k] in every row of its column [craft]. *)
Variable read_in : string -> Z -> Z -> result frame.

(** [for i in names: self.plsm[i] = par_read_in(i)]. *)
Fixpoint store_serial (s e : Z) (names : list string) (d : dict) : result dict :=
  match names with
  | [] => Ok d
  | i :: rest =>
      f <- read_in i s e ;;
      store_serial s e rest (insert i (VFrame f) d)
  end.

(** [pool.map(par_read_in, names)]: the frames in the order of the
    names, each with the name it was read for. *)
Fixpoint read_all (s e : Z) (names : list string) : result (list (string * frame)) :=
  match names with
  | [] => Ok []
  | i :: rest =>
      f <- read_in i s e ;;
      fs <- read_all s e rest ;;
      Ok ((i, f) :: fs)
  end.

(** [for i in outp: self.plsm[i.craft.values[0]] = i]: a frame without
    rows has no first value in its column [craft]. *)
Fixpoint store_pool (outp : list (string * frame)) (d : dict) : result dict :=
  match outp with
  | [] => Ok d
  | (k, f) :: rest =>
      match f with
      | [] => Raise IndexError
      | _ :: _ => store_pool rest (insert k (VFrame f) d)
      end
  end.

(** One of the two read-in blocks: a pool of [len(names)] workers when
    [nproc > 1.5], which cannot be made for no name, and a plain loop
    otherwise. *)
Definition read_craft (np : Q) (s e : Z) (names : list string) (d : dict)
    : result dict :=
  if negb (Qle_bool np (15 # 10)) then
    match names with
    | [] => Raise ValueError
    | _ :: _ => outp <- read_all s e names ;; store_pool outp d
    end
  else store_serial s e names d.

(** [init_read()]: the object after the call.  A call that raises is
    modelled by the exception alone, without the attributes it had
    already set. *)
Definition init_read (x : session) : result session :=
  if first x then
    plsm1 <- read_craft (nproc x) (start_t x) (end_t x) (craft x) [] ;;
    match earth_craft x with
    | None =>
        Ok (mksession false (craft x) None plsm1 (nproc x)
              (start_t x) (end_t x) (pad_earth x))
    | Some ec =>
        plsm2 <- read_craft (nproc x) (start_t x + pad_earth x)%Z
                   (end_t x + pad_earth x)%Z ec plsm1 ;;
        Ok (mksession false (craft x ++ ec) (Some ec) plsm2 (nproc x)
              (start_t x) (end_t x) (pad_earth x))
    end
  else Ok x.

End InitRead.

End Session.

(** ** Running mean: [movingaverage] *)

Module Smooth.
Local Open Scope Q_scope.

Definition qsum (l : list Q) : Q := fold_right Qplus 0 l.

(** The sum of the products of two lists, place by place. *)
Fixpoint qdot (a b : list Q) : Q :=
  match a, b with
  | x :: a', y :: b' => x * y + qdot a' b'
  | _, _ => 0
  end.

(** [np.convolve(a, v, 'valid')]: the longer array first, neither one
    empty, and one value for every place where the shorter one, turned
    round, lies within the longer one. *)
Definition convolve_valid (a v : list Q) : result (list Q) :=
  let a' := if (List.length a <? List.length v)%nat then v else a in
  let v' := if (List.length a <? List.length v)%nat then a else v in
  match a', v' with
  | [], _ => Raise ValueError
  | _, [] => Raise ValueError
  | _, _ =>
      Ok (map (fun i => qdot (firstn (List.length v') (skipn i a')) (rev v'))
              (seq 0 (List.length a' - List.length v' + 1)))
  end.

(** [movingaverage(values, window)]. *)
Definition movingaverage (values : list Q) (window : nat) : result (list Q) :=
  let weights := repeat (1 / inject_Z (Z.of_nat window)) window in
  sma <- convolve_valid values weights ;;
  match sma with
  | [] => Raise IndexError
  | s0 :: _ => Ok (repeat s0 (window - 1) ++ sma)
  end.

End Smooth.

(** ** Concrete inputs *)

Module Examples.
Import Frame Dtw Refine.

(** A row whose numeric columns all hold [v]. *)
Definition flat_row (v : Q) : row := mkrow (fun _ => Some v) None None None.

(** A frame with the given index labels and flat rows. *)
Definition flat_frame (v : Q) (labels : list Z) : frame :=
  map (fun t => (t, flat_row v)) labels.

(** A frame of rows of NaN. *)
Definition nan_frame (labels : list Z) : frame :=
  map (fun t => (t, nan_row)) labels.

Definition sec (s : Z) : Z := (s * 1000000000)%Z.

(** An aligner that checks nothing: it pairs place [k] of the first array
    with place [k] of the second, staying on the last place of the second
    when that one is the shorter. *)
Definition lockstep_path (n m : nat) : path :=
  (seq 0 n, map (fun k => Nat.min k (m - 1)) (seq 0 n)).

Definition lockstep (x1 x2 : list (option Q)) (r1 r2 : qnum) (w a e : Q) (z : Z)
    : result path :=
  Ok (lockstep_path (List.length x1) (List.length x2)).

Definition lockstep_std (x1 x2 : list (option Q)) : result path :=
  Ok (lockstep_path (List.length x1) (List.length x2)).

(** The median sample interval as the code takes it; the frames used
    here have two rows or more. *)
Definition whole_second_cadence (idx : list Z) : Q :=
  Cadence.median_interval 0 idx.

(** Percentiles as numpy gives them for an array that holds a NaN. *)
Definition nan_percentile (x : list (option Q)) (q : list Q)
    : result (list (option Q)) :=
  Ok (map (fun _ => None) q).

Definition first_column (f : frame) (par : list string) : result (list string) :=
  Ok (firstn 1 par).

Definition no_speed_offset (t p : frame) (par : list string) : result (option Q) :=
  Ok (Some 0).

(** A reader whose frame shows the window it was asked for. *)
Definition read_window (k : string) (start_t end_t : Z) : result frame :=
  Ok (flat_frame 1 [start_t; end_t]).

(** The trainer and two comparison spacecraft over two hours: DSCOVR sees
    everything 60 s after Wind, ACE 120 s after Wind. *)
Definition wind_index : list Z := map sec [0; 1800; 3600; 5400; 7200]%Z.
Definition dscovr_index : list Z := map (fun t => (t + sec 60)%Z) wind_index.
Definition ace_index : list Z := map (fun t => (t + sec 120)%Z) wind_index.

Definition three_craft : list string := ["Wind"; "DSCOVR"; "ACE"]%string.

Definition plsm_three : dict :=
  [("Wind"%string, VFrame (flat_frame 400 wind_index));
   ("DSCOVR"%string, VFrame (flat_frame 400 dscovr_index));
   ("ACE"%string, VFrame (flat_frame 400 ace_index))].

Definition dtw_three (pr : Q) (self_plsm : dict) : result dict :=
  Dtw.dtw lockstep lockstep_std whole_second_cadence nan_percentile first_column no_speed_offset
    three_craft "Wind" true 10 (2 # 10) pr PNone self_plsm.

(** Three spacecraft 100 km from the reference along the three axes, the
    first one reached 10 s after the reference. *)
Definition axes_matrix : Linalg.mat3 :=
  Linalg.mkmat (Linalg.mkvec 100 0 0) (Linalg.mkvec 0 100 0) (Linalg.mkvec 0 0 100).
Definition axes_times : Linalg.vec3 := Linalg.mkvec 10 0 0.

(** Two frames of different lengths and cadences. *)
Definition short_frame : frame := flat_frame 400 (map sec [0; 120]%Z).
Definition long_frame : frame := flat_frame 400 (map sec [0; 60; 120]%Z).

(** Three spacecraft one unit from the trainer, and a front that reaches
    the first of them one second after the trainer ([sunward_event]: it
    moves along -x) or one second before ([reversed_event]). *)
Definition unit_positions : list Linalg.vec3 :=
  [Linalg.mkvec 0 0 0; Linalg.mkvec (-1) 0 0; Linalg.mkvec 0 1 0; Linalg.mkvec 0 0 1].

(** The position matrix of [unit_positions]. *)
Definition unit_matrix : Linalg.mat3 :=
  Linalg.mkmat
    (Linalg.vsub (Linalg.mkvec (-1) 0 0) (Linalg.mkvec 0 0 0))
    (Linalg.vsub (Linalg.mkvec 0 1 0) (Linalg.mkvec 0 0 0))
    (Linalg.vsub (Linalg.mkvec 0 0 1) (Linalg.mkvec 0 0 0)).

Definition target_b (esp : string) : Predict.target :=
  Predict.mktarget (Linalg.mkvec (-10) 0 0) true.

Definition sunward_event : Predict.event :=
  Predict.mkevent (sec 18000) 400 [0; 1; 0; 0]%R unit_positions target_b.

Definition reversed_event : Predict.event :=
  Predict.mkevent (sec 18060) 400 [0; -1; 0; 0]%R unit_positions target_b.

(** A target whose messages can be written for THEMIS_B only. *)
Definition target_b_only (esp : string) : Predict.target :=
  Predict.mktarget (Linalg.mkvec (-10) 0 0) (String.eqb esp "THEMIS_B").

Definition sunward_event_b_only : Predict.event :=
  Predict.mkevent (sec 18000) 400 [0; 1; 0; 0]%R unit_positions target_b_only.

(** A solver that meets a zero pivot on every singular matrix. *)
Definition zero_pivot (p : Linalg.mat3) (t : Linalg.vec3) : result Linalg.vec3 :=
  Raise LinAlgError.

(** A conversion of seconds to whole nanoseconds: NaN gives NaT, and an
    infinity is refused. *)
Definition whole_timedelta (x : Linalg.num) : result (option Z) :=
  match x with
  | Linalg.Fin r => Ok (Some (Int_part (r * 1000000000)))
  | Linalg.Nan => Ok None
  | Linalg.Inf => Raise ValueError
  end.

(** Times can be written, NaT cannot. *)
Definition formats_time (t : option Z) : bool :=
  match t with
  | Some _ => true
  | None => false
  end.

(** Days since the epoch. *)
Definition days (t : option Z) : result Linalg.num :=
  match t with
  | Some z => Ok (Linalg.Fin (IZR z / 86400000000000))
  | None => Raise ValueError
  end.

End Examples.

(** ** Shapes the loops keep *)

Module Invariants.
Import Predict.

(** The five lists kept for a spacecraft have one length, and nothing is
    kept for a spacecraft that is not near Earth. *)
Definition lists_parallel (earth_craft : list string) (d : event_dict) : Prop :=
  forall esp,
    let s := stores d esp in
    List.length (st_time s) = List.length (st_nvec s) /\
    List.length (st_plsm s) = List.length (st_nvec s) /\
    List.length (st_velo s) = List.length (st_nvec s) /\
    List.length (st_dist s) = List.length (st_nvec s) /\
    (~ In esp earth_craft -> st_nvec s = []).

(** An index in increasing order, equal labels allowed. *)
Definition nondecreasing (l : list Z) : Prop :=
  forall m n x y,
    (m <= n)%nat -> nth_error l m = Some x -> nth_error l n = Some y -> (x <= y)%Z.

(** An index array that never steps back. *)
Definition nondecreasing_nat (l : list nat) : Prop :=
  forall m n x y,
    (m <= n)%nat -> nth_error l m = Some x -> nth_error l n = Some y -> (x <= y)%nat.

(** The dictionary holds a frame under [k]. *)
Definition has_frame (d : Frame.dict) (k : string) : Prop :=
  exists f, Frame.lookup_frame d k = Ok f.

(** Every value of the dictionary is a frame. *)
Definition all_frames (d : Frame.dict) : Prop :=
  forall k v, Frame.lookup d k = Ok v -> exists f, v = Frame.VFrame f.

End Invariants.

(** ** More concrete inputs *)

Module Cases.
Import Frame Dtw Refine Examples.

(** The solution for [axes_matrix] and [axes_times]: a front moving along
    +x at 10 km/s. *)
Definition axes_solution : Linalg.vec3 := Linalg.mkvec (/ 10) 0 0.

(** Four spacecraft at one place: the position matrix is all zeros. *)
Definition same_positions : list Linalg.vec3 :=
  [Linalg.mkvec 1 2 3; Linalg.mkvec 1 2 3; Linalg.mkvec 1 2 3; Linalg.mkvec 1 2 3].

Definition same_place_event : Predict.event :=
  Predict.mkevent (sec 18000) 400 [0; 1; 2; 3]%R same_positions target_b.

Definition slow_frame : frame :=
  flat_frame 400 [0; 3000000000; 6000000000]%Z.

(** A frame sampled twice a second. *)
Definition subsecond_frame : frame :=
  flat_frame 400 [0; 500000000; 1000000000]%Z.

(** A path onto five reference rows that repeats a reference index, and
    paths that do not fit. *)
Definition repeating_path : path := ([0; 1; 1; 2; 4]%nat, [0; 1; 2; 3; 4]%nat).
Definition overlong_path : path := ([0; 1]%nat, [0; 7]%nat).
Definition lopsided_path : path := ([0; 1; 2]%nat, [0; 1]%nat).

(** A frame whose column [Bx] has gaps, and one with a repeated label. *)
Definition gappy_frame : frame :=
  [(sec 0, nan_row); (sec 60, flat_row 3); (sec 120, nan_row)].

Definition repeated_frame : frame :=
  [(sec 0, flat_row 1); (sec 60, flat_row 2); (sec 0, flat_row 3)].

(** Two unit vectors at a right angle, and an anchor off the origin. *)
Definition unit_x : Linalg.vec3 := Linalg.mkvec 1 0 0.
Definition unit_y : Linalg.vec3 := Linalg.mkvec 0 1 0.
Definition anchor : Linalg.vec3 := Linalg.mkvec 3 0 4.

(** A fresh object with two spacecraft at L1 and one near Earth, read in
    a plain loop or by a pool of workers. *)
Definition l1_session : Session.session :=
  Session.mksession true ["Wind"; "DSCOVR"]%string (Some ["THEMIS_B"]%string) []
    1 (sec 0) (sec 7200) (sec 3600).

Definition pool_session : Session.session :=
  Session.mksession true ["Wind"; "DSCOVR"]%string (Some ["THEMIS_B"]%string) []
    4 (sec 0) (sec 7200) (sec 3600).

Definition pool_session_no_earth : Session.session :=
  Session.mksession true ["Wind"; "DSCOVR"]%string (Some []) []
    4 (sec 0) (sec 7200) (sec 3600).

(** A reader that finds no observation of DSCOVR in any window. *)
Definition read_quiet (k : string) (start_t end_t : Z) : result frame :=
  if String.eqb k "DSCOVR" then Ok [] else read_window k start_t end_t.

(** Six speeds, and a frame with offsets of 50 s, 60 s and 90 s of which
    the last lies outside the half hour about 3600 s. *)
Definition ramp : list Q := [1; 2; 3; 4; 5; 6]%Q.

Definition offsets_frame : frame :=
  [(sec 1800, with_offsets (flat_row 1) (sec 50));
   (sec 3600, with_offsets (flat_row 1) (sec 60));
   (sec 5400, nan_row);
   (sec 7200, with_offsets (flat_row 1) (sec 90))].

End Cases.

(** * Properties *)

Section Checks.
Import Frame Dtw Refine Examples.

Example lower_soho : lower "SOHO" = "soho"%string.
Proof. reflexivity. Qed.

Example contains_themis : contains "themis" (lower "THEMIS_B") = true.
Proof. reflexivity. Qed.

Example contains_offset : contains "offset" "Wind" = false.
Proof. reflexivity. Qed.

Example replace_offset_key : replace "_offset" "" "DSCOVR_offset" = "DSCOVR"%string.
Proof. reflexivity. Qed.

Example replace_twice :
  replace "_offset" "" "A_offset_B_offset" = "A_B"%string.
Proof. reflexivity. Qed.

Example fill_gaps :
  bfill (ffill [None; Some 1%Q; None; Some 3%Q; None])
  = [Some 1%Q; Some 1%Q; Some 1%Q; Some 3%Q; Some 3%Q].
Proof. reflexivity. Qed.

Example fill_nothing : bfill (ffill [None; None]) = [None; None].
Proof. reflexivity. Qed.

Example drop_duplicated_keeps_first :
  index (drop_duplicated [] (flat_frame 1 [3; 5; 3; 7; 5]%Z)) = [3; 5; 7]%Z.
Proof. reflexivity. Qed.

Example median_odd : median [30; 10; 20]%Z = Some 20%Z.
Proof. reflexivity. Qed.

Example median_even : median [40; 10; 20; 35]%Z = Some 27%Z.
Proof. reflexivity. Qed.

Example median_none : median [] = None.
Proof. reflexivity. Qed.

Example midpoint_two_hours : midpoint 0 (sec 7200) = sec 3600.
Proof. reflexivity. Qed.

Example whole_seconds_cut : whole_seconds 1500000000 = sec 1.
Proof. reflexivity. Qed.

Example insert_keeps_place :
  keys (insert "a" (VDelta None) [("a"%string, VDelta (Some 1%Z)); ("b"%string, VDelta None)])
  = ["a"; "b"]%string.
Proof. reflexivity. Qed.

Example penalty_radii_85 :
  radius_is (fst (penalty_radii 85 60 120)) 85 /\
  radius_is (snd (penalty_radii 85 60 120)) (85 # 2).
Proof. split; reflexivity. Qed.

Example penalty_radii_subsecond :
  penalty_radii 85 0 3 = (QInf, QFin (60 * 85 / 3)).
Proof. reflexivity. Qed.

Example median_interval_cut :
  Cadence.median_interval 0 [0; 1500000000; 3000000000; 4500000000]%Z = 1%Q.
Proof. reflexivity. Qed.

Example median_interval_subsecond :
  Cadence.median_interval 7 [0; 500000000; 1000000000]%Z = 0%Q.
Proof. reflexivity. Qed.

Example choose_par_soho : choose_par "SOHO" (PStr "Bz") = ["SPEED"%string].
Proof. reflexivity. Qed.

Example choose_par_default : choose_par "ACE" PNone = ["Bx"; "By"; "Bz"]%string.
Proof. reflexivity. Qed.

End Checks.

Section PlaneSolver.
Import Linalg.
Local Open Scope R_scope.

Lemma vec3_eq (a b : vec3) :
  vx a = vx b -> vy a = vy b -> vz a = vz b -> a = b.
Proof. destruct a, b; simpl; intros; subst; reflexivity. Qed.

Lemma vec3_nonzero_dot (a : vec3) : a <> vzero -> 0 < dot a a.
Proof.
  intros Ha. destruct a as [x y z]. unfold dot; simpl.
  destruct (Req_dec_T x 0) as [Hx|Hx];
    [destruct (Req_dec_T y 0) as [Hy|Hy];
      [destruct (Req_dec_T z 0) as [Hz|Hz]|]|].
  - subst. exfalso. apply Ha. reflexivity.
  - subst. nra.
  - nra.
  - nra.
Qed.

Lemma norm_pos (a : vec3) : a <> vzero -> 0 < norm a.
Proof. intros Ha. unfold norm. apply sqrt_lt_R0, vec3_nonzero_dot, Ha. Qed.

Lemma norm_sqr (a : vec3) : norm a * norm a = dot a a.
Proof.
  unfold norm. apply sqrt_sqrt.
  destruct a as [x y z]; unfold dot; simpl; nra.
Qed.

Lemma norm_vdiv (a : vec3) : a <> vzero -> norm (vdiv a (norm a)) = 1.
Proof.
  intros Ha. pose proof (norm_pos a Ha) as Hn. pose proof (norm_sqr a) as Hs.
  unfold norm at 1.
  replace (dot (vdiv a (norm a)) (vdiv a (norm a))) with 1.
  - apply sqrt_1.
  - unfold vdiv, dot in *; simpl. destruct a as [x y z]; simpl in *.
    set (n := norm (mkvec x y z)) in *.
    field_simplify_eq; [ nra | lra ].
Qed.

Variable lapack_singular : mat3 -> vec3 -> result vec3.

Let linalg_solve := Linalg.linalg_solve lapack_singular.
Let solve_plane := Linalg.solve_plane lapack_singular.

Lemma linalg_solve_nonsingular (p : mat3) (t : vec3) :
  det3 p <> 0 ->
  linalg_solve p t
  = Ok (mkvec (det3 (replace_col 0 p t) / det3 p)
              (det3 (replace_col 1 p t) / det3 p)
              (det3 (replace_col 2 p t) / det3 p)).
Proof.
  intros Hd. unfold linalg_solve, Linalg.linalg_solve.
  destruct (Req_dec_T (det3 p) 0); [contradiction|reflexivity].
Qed.

(** What [linalg_solve] returns for a nonsingular matrix solves the
    system. *)
Lemma linalg_solve_sound (p : mat3) (t x : vec3) :
  det3 p <> 0 -> linalg_solve p t = Ok x -> mulv p x = t.
Proof.
  intros H0. rewrite linalg_solve_nonsingular by exact H0.
  intros H; injection H as <-.
  destruct p as [[a b c] [d e f] [g h i]]. destruct t as [t1 t2 t3].
  unfold det3 in *; simpl in *.
  apply vec3_eq; unfold mulv, dot, replace_col, det3; simpl;
    field; exact H0.
Qed.

(** [linalg_solve] finds the solution there is. *)
Lemma linalg_solve_complete (p : mat3) (x t : vec3) :
  det3 p <> 0 -> mulv p x = t -> linalg_solve p t = Ok x.
Proof.
  intros Hd <-. rewrite linalg_solve_nonsingular by exact Hd. f_equal.
  destruct p as [[a b c] [d e f] [g h i]]. destruct x as [x y z].
  unfold det3 in Hd; simpl in Hd.
  apply vec3_eq; unfold mulv, dot, replace_col, det3; simpl; field; exact Hd.
Qed.

(** For a solved vector that is not zero the plane is one of numbers. *)
Lemma solve_plane_numbers (p : mat3) (t vna : vec3) :
  linalg_solve p t = Ok vna -> vna <> vzero ->
  solve_plane p t = Ok (vna, Normal (vdiv vna (norm vna)), Fin (1 / norm vna)).
Proof.
  intros Hs Hv. unfold solve_plane, Linalg.solve_plane.
  fold linalg_solve. rewrite Hs. unfold bind.
  pose proof (norm_pos vna Hv) as Hn.
  destruct (Req_dec_T (norm vna) 0) as [H0|H0]; [lra|reflexivity].
Qed.

(** For a solved vector of zero the normal is NaN and the speed
    infinite. *)
Lemma solve_plane_zero (p : mat3) (t : vec3) :
  linalg_solve p t = Ok vzero ->
  solve_plane p t = Ok (vzero, NanNormal, Inf).
Proof.
  intros Hs. unfold solve_plane, Linalg.solve_plane.
  fold linalg_solve. rewrite Hs. unfold bind.
  assert (Hn : norm vzero = 0).
  { unfold norm, dot, vzero; simpl.
    replace (0 * 0 + 0 * 0 + 0 * 0) with 0 by ring. apply sqrt_0. }
  destruct (Req_dec_T (norm vzero) 0) as [H0|H0]; [reflexivity|contradiction].
Qed.

Lemma solve_plane_complete (p : mat3) (x t : vec3) :
  det3 p <> 0 -> mulv p x = t -> x <> vzero ->
  solve_plane p t = Ok (x, Normal (vdiv x (norm x)), Fin (1 / norm x)).
Proof.
  intros Hd Hx Hv. apply solve_plane_numbers; [|exact Hv].
  apply linalg_solve_complete; assumption.
Qed.

(** C1. For a nonsingular [p] and a [t] whose solution is not the zero
    vector (for a nonsingular [p]: a [t] that is not zero), [solve_plane]
    returns the solution of [p x = t], a normal of Euclidean length 1
    (so within 1e-9 of 1) and a strictly positive speed, the reciprocal of
    the norm of the solved vector. *)
Theorem solve_plane_unit_normal (p : mat3) (t : vec3) :
  det3 p <> 0 -> t <> vzero ->
  exists vna vn vm,
    solve_plane p t = Ok (vna, Normal vn, Fin vm) /\
    mulv p vna = t /\ vna <> vzero /\
    norm vn = 1 /\ Rabs (norm vn - 1) <= / 1000000000 /\
    0 < vm /\ vm = 1 / norm vna.
Proof.
  intros Hdet Ht.
  destruct (linalg_solve p t) as [vna|e] eqn:Hs.
  2:{ rewrite linalg_solve_nonsingular in Hs by exact Hdet. discriminate. }
  pose proof (linalg_solve_sound _ _ _ Hdet Hs) as Hmul.
  assert (Hvna : vna <> vzero).
  { intros ->. apply Ht. rewrite <- Hmul.
    destruct p as [[a b c] [d e f] [g h i]].
    apply vec3_eq; unfold mulv, dot, vzero; simpl; ring. }
  exists vna, (vdiv vna (norm vna)), (1 / norm vna).
  pose proof (norm_pos vna Hvna) as Hn.
  pose proof (norm_vdiv vna Hvna) as Hu.
  repeat split; try assumption.
  - apply solve_plane_numbers; assumption.
  - rewrite Hu. replace (1 - 1) with 0 by ring. rewrite Rabs_R0. lra.
  - unfold Rdiv. rewrite Rmult_1_l. apply Rinv_0_lt_compat, Hn.
Qed.

End PlaneSolver.

Section OffsetExtraction.
Import Frame Dtw.
Local Open Scope Z_scope.

Lemma nth_error_same_length {A B : Type} (l : list A) (l' : list B) n x :
  List.length l = List.length l' -> nth_error l n = Some x ->
  exists y, nth_error l' n = Some y.
Proof.
  intros Hlen Hn.
  assert (Hlt : (n < List.length l')%nat).
  { rewrite <- Hlen. apply nth_error_Some. rewrite Hn. discriminate. }
  destruct (nth_error l' n) as [y|] eqn:Hy; [eauto|].
  apply nth_error_None in Hy. lia.
Qed.

Lemma traverse_item_nth {A : Type} (l : list A) : forall ix r,
  traverse (item l) ix = Ok r ->
  List.length r = List.length ix /\
  forall n i, nth_error ix n = Some i ->
    exists x, nth_error l i = Some x /\ nth_error r n = Some x.
Proof.
  induction ix as [|i0 ix IH]; intros r; simpl.
  - intros H; injection H as <-. split; [reflexivity|].
    intros [|n] i; discriminate.
  - unfold item at 1. destruct (nth_error l i0) as [x0|] eqn:Hx0; simpl; [|discriminate].
    destruct (traverse (item l) ix) as [r0|] eqn:Hr0; simpl; [|discriminate].
    intros H; injection H as <-. destruct (IH r0 eq_refl) as [Hlen Hnth].
    split; [simpl; lia|].
    intros [|n] i; simpl.
    + intros H; injection H as <-. eauto.
    + apply Hnth.
Qed.

Lemma traverse_item_total {A : Type} (l : list A) : forall ix,
  Forall (fun i => (i < List.length l)%nat) ix ->
  exists r, traverse (item l) ix = Ok r.
Proof.
  induction ix as [|i0 ix IH]; intros Hall; simpl; [eauto|].
  inversion Hall as [|? ? Hi Hrest]; subst.
  destruct (IH Hrest) as [r Hr]. rewrite Hr.
  unfold item. destruct (nth_error l i0) as [x|] eqn:Hx.
  - simpl. eauto.
  - apply nth_error_None in Hx. lia.
Qed.

Lemma sub_index_nth : forall a b r,
  sub_index a b = Ok r ->
  List.length r = List.length a /\ List.length b = List.length a /\
  forall n x y, nth_error a n = Some x -> nth_error b n = Some y ->
    nth_error r n = Some (x - y).
Proof.
  induction a as [|x0 a IH]; intros [|y0 b] r; simpl; try discriminate.
  - intros H; injection H as <-. repeat split. intros [|n]; discriminate.
  - destruct (sub_index a b) as [r0|] eqn:Hr0; simpl; [|discriminate].
    intros H; injection H as <-. destruct (IH b r0 Hr0) as (H1 & H2 & H3).
    repeat split; simpl; try lia.
    intros [|n] x y; simpl.
    + intros Hx Hy. injection Hx as <-. injection Hy as <-. reflexivity.
    + apply H3.
Qed.

Lemma sub_index_total : forall a b,
  List.length a = List.length b -> exists r, sub_index a b = Ok r.
Proof.
  induction a as [|x a IH]; intros [|y b] Hlen; simpl in *; try discriminate; [eauto|].
  destruct (IH b) as [r Hr]; [lia|]. rewrite Hr. simpl. eauto.
Qed.

Lemma reindex_nth f labels b :
  reindex f labels = Ok b ->
  index b = labels /\
  forall n t, nth_error labels n = Some t -> nth_error b n = Some (t, row_at f t).
Proof.
  unfold reindex. destruct (has_duplicates (index f)); [discriminate|].
  intros H; injection H as <-. split.
  - unfold index. rewrite map_map. simpl. apply map_id.
  - intros n t Hn. rewrite nth_error_map, Hn. reflexivity.
Qed.

Lemma set_index_nth : forall f labels g,
  set_index f labels = Ok g ->
  List.length g = List.length f /\ List.length labels = List.length f /\
  forall n t r t', nth_error f n = Some (t, r) -> nth_error labels n = Some t' ->
    nth_error g n = Some (t', r).
Proof.
  induction f as [|[t0 r0] f IH]; intros [|l0 labels] g; simpl; try discriminate.
  - intros H; injection H as <-. repeat split. intros [|n]; discriminate.
  - destruct (set_index f labels) as [g0|] eqn:Hg0; simpl; [|discriminate].
    intros H; injection H as <-. destruct (IH labels g0 Hg0) as (H1 & H2 & H3).
    repeat split; simpl; try lia.
    intros [|n] t r t'; simpl.
    + intros Hx Hy. injection Hx as <- <-. injection Hy as <-. reflexivity.
    + apply H3.
Qed.

Lemma set_index_total : forall f labels,
  List.length f = List.length labels -> exists g, set_index f labels = Ok g.
Proof.
  induction f as [|[t r] f IH]; intros [|l labels] Hlen; simpl in *;
    try discriminate; [eauto|].
  destruct (IH labels) as [g Hg]; [lia|]. rewrite Hg. simpl. eauto.
Qed.

Lemma set_column_nth {A : Type} (upd : row -> A -> row) : forall f v g,
  set_column upd f v = Ok g ->
  List.length g = List.length f /\ List.length v = List.length f /\
  forall n t r x, nth_error f n = Some (t, r) -> nth_error v n = Some x ->
    nth_error g n = Some (t, upd r x).
Proof.
  induction f as [|[t0 r0] f IH]; intros [|x0 v] g; simpl; try discriminate.
  - intros H; injection H as <-. repeat split. intros [|n]; discriminate.
  - destruct (set_column upd f v) as [g0|] eqn:Hg0; simpl; [|discriminate].
    intros H; injection H as <-. destruct (IH v g0 Hg0) as (H1 & H2 & H3).
    repeat split; simpl; try lia.
    intros [|n] t r x; simpl.
    + intros Hx Hy. injection Hx as <- <-. injection Hy as <-. reflexivity.
    + apply H3.
Qed.

Lemma set_column_total {A : Type} (upd : row -> A -> row) : forall f v,
  List.length f = List.length v -> exists g, set_column upd f v = Ok g.
Proof.
  induction f as [|[t r] f IH]; intros [|x v] Hlen; simpl in *;
    try discriminate; [eauto|].
  destruct (IH v) as [g Hg]; [lia|]. rewrite Hg. simpl. eauto.
Qed.

Lemma index_length (f : frame) : List.length (index f) = List.length f.
Proof. apply length_map. Qed.

Lemma nth_error_index (f : frame) n t r :
  nth_error f n = Some (t, r) -> nth_error (index f) n = Some t.
Proof. intros H. unfold index. rewrite nth_error_map, H. reflexivity. Qed.

Lemma offset_frame_total t_mat p_mat pth :
  path_fits t_mat p_mat pth -> has_duplicates (index p_mat) = false ->
  exists b_mat, offset_frame t_mat p_mat pth = Ok b_mat.
Proof.
  intros (Hlen & Ht & Hp) Hdup. unfold offset_frame.
  rewrite <- index_length in Ht, Hp.
  destruct (traverse_item_total _ _ Hp) as [p_idx Hpi].
  destruct (traverse_item_total _ _ Ht) as [t_idx Hti].
  unfold iloc_index. rewrite Hpi, Hti. simpl.
  destruct (traverse_item_nth _ _ _ Hpi) as [Lp _].
  destruct (traverse_item_nth _ _ _ Hti) as [Lt _].
  destruct (sub_index_total p_idx t_idx) as [off Hoff]; [lia|].
  rewrite Hoff. simpl.
  destruct (sub_index_nth _ _ _ Hoff) as (Lo & _ & _).
  unfold reindex. rewrite Hdup. simpl.
  set (b1 := map (fun t => (t, row_at p_mat t)) p_idx).
  assert (Lb1 : List.length b1 = List.length p_idx) by apply length_map.
  destruct (sub_index_total (index b1) off) as [ni Hni];
    [rewrite index_length; lia|].
  rewrite Hni. simpl.
  destruct (sub_index_nth _ _ _ Hni) as (Ln & _ & _). rewrite index_length in Ln.
  destruct (set_index_total b1 ni) as [b2 Hb2]; [lia|]. rewrite Hb2. simpl.
  destruct (set_index_nth _ _ _ Hb2) as (L2 & _ & _).
  destruct (set_column_total with_offsets b2 off) as [b3 Hb3]; [lia|].
  rewrite Hb3. simpl.
  destruct (set_column_nth _ _ _ _ Hb3) as (L3 & _ & _).
  destruct (set_column_total with_train_ind b3 (fst pth)) as [b4 Hb4]; [lia|].
  rewrite Hb4. simpl.
  destruct (set_column_nth _ _ _ _ Hb4) as (L4 & _ & _).
  apply set_column_total. lia.
Qed.

(** Row [n] of the re-indexed frame, for the pair [(i, j)] at place [n] of
    the path. *)
Lemma offset_frame_rows t_mat p_mat pth b_mat :
  offset_frame t_mat p_mat pth = Ok b_mat ->
  List.length b_mat = List.length (fst pth) /\
  List.length (snd pth) = List.length (fst pth) /\
  forall n i j,
    nth_error (fst pth) n = Some i -> nth_error (snd pth) n = Some j ->
    exists ti pj,
      nth_error (index t_mat) i = Some ti /\
      nth_error (index p_mat) j = Some pj /\
      nth_error b_mat n =
        Some (pj - (pj - ti),
              mkrow (cols (row_at p_mat pj)) (Some (pj - ti)) (Some i) (Some j)).
Proof.
  unfold offset_frame, iloc_index.
  destruct (traverse (item (index p_mat)) (snd pth)) as [p_idx|] eqn:Hpi; simpl; [|discriminate].
  destruct (traverse (item (index t_mat)) (fst pth)) as [t_idx|] eqn:Hti; simpl; [|discriminate].
  destruct (sub_index p_idx t_idx) as [off|] eqn:Hoff; simpl; [|discriminate].
  destruct (reindex p_mat p_idx) as [b1|] eqn:Hb1; simpl; [|discriminate].
  destruct (sub_index (index b1) off) as [ni|] eqn:Hni; simpl; [|discriminate].
  destruct (set_index b1 ni) as [b2|] eqn:Hb2; simpl; [|discriminate].
  destruct (set_column with_offsets b2 off) as [b3|] eqn:Hb3; simpl; [|discriminate].
  destruct (set_column with_train_ind b3 (fst pth)) as [b4|] eqn:Hb4; simpl; [|discriminate].
  intros Hb.
  destruct (traverse_item_nth _ _ _ Hpi) as [Lp Np].
  destruct (traverse_item_nth _ _ _ Hti) as [Lt Nt].
  destruct (sub_index_nth _ _ _ Hoff) as (Lo & Lo' & No).
  destruct (reindex_nth _ _ _ Hb1) as [Ib1 Nb1].
  destruct (sub_index_nth _ _ _ Hni) as (Ln & Ln' & Nn).
  destruct (set_index_nth _ _ _ Hb2) as (L2 & L2' & N2).
  destruct (set_column_nth _ _ _ _ Hb3) as (L3 & L3' & N3).
  destruct (set_column_nth _ _ _ _ Hb4) as (L4 & L4' & N4).
  destruct (set_column_nth _ _ _ _ Hb) as (L5 & L5' & N5).
  repeat split; try lia.
  intros n i j Hi Hj.
  destruct (Np n j Hj) as (pj & Hpj & Hpn).
  destruct (Nt n i Hi) as (ti & Htj & Htn).
  exists ti, pj. repeat split; try assumption.
  pose proof (No n pj ti Hpn Htn) as Hon.
  pose proof (Nb1 n pj Hpn) as Hb1n.
  pose proof (nth_error_index _ _ _ _ Hb1n) as Hib1n.
  pose proof (Nn n pj (pj - ti) Hib1n Hon) as Hnin.
  pose proof (N2 n _ _ _ Hb1n Hnin) as Hb2n.
  pose proof (N3 n _ _ _ Hb2n Hon) as Hb3n.
  pose proof (N4 n _ _ _ Hb3n Hi) as Hb4n.
  pose proof (N5 n _ _ _ Hb4n Hj) as Hb5n.
  rewrite Hb5n. reflexivity.
Qed.

(** C4. For the pair [(i, j)] at each place of a path, the offset stored
    is the comparison time stamp at [j] minus the reference time stamp at
    [i], and the row of the re-indexed comparison frame at that place
    holds the comparison data of time stamp [j] under that time stamp
    moved back by the offset. *)
Theorem offsets_from_path (t_mat p_mat : frame) (pth : path) :
  path_fits t_mat p_mat pth -> has_duplicates (index p_mat) = false ->
  exists b_mat,
    offset_frame t_mat p_mat pth = Ok b_mat /\
    List.length b_mat = List.length (fst pth) /\
    forall n i j,
      nth_error (fst pth) n = Some i -> nth_error (snd pth) n = Some j ->
      exists ti pj r,
        nth_error (index t_mat) i = Some ti /\
        nth_error (index p_mat) j = Some pj /\
        nth_error b_mat n = Some (pj - (pj - ti), r) /\
        offsets r = Some (pj - ti) /\
        cols r = cols (row_at p_mat pj).
Proof.
  intros Hfit Hdup.
  destruct (offset_frame_total _ _ _ Hfit Hdup) as [b_mat Hb].
  exists b_mat. destruct (offset_frame_rows _ _ _ _ Hb) as (Hlen & _ & Hrows).
  repeat split; try assumption.
  intros n i j Hi Hj. destruct (Hrows n i j Hi Hj) as (ti & pj & Hti & Hpj & Hn).
  exists ti, pj, (mkrow (cols (row_at p_mat pj)) (Some (pj - ti)) (Some i) (Some j)).
  repeat split; assumption.
Qed.

(** C5. For every row of the re-indexed frame, its time stamp plus the
    offset stored in it is the comparison time stamp at the comparison
    index of the path at that place. *)
Theorem offset_round_trip (t_mat p_mat : frame) (pth : path) :
  path_fits t_mat p_mat pth -> has_duplicates (index p_mat) = false ->
  exists b_mat,
    offset_frame t_mat p_mat pth = Ok b_mat /\
    List.length b_mat = List.length (snd pth) /\
    forall n t r,
      nth_error b_mat n = Some (t, r) ->
      exists o j,
        offsets r = Some o /\
        nth_error (snd pth) n = Some j /\
        nth_error (index p_mat) j = Some (t + o).
Proof.
  intros Hfit Hdup.
  destruct (offset_frame_total _ _ _ Hfit Hdup) as [b_mat Hb].
  exists b_mat. destruct (offset_frame_rows _ _ _ _ Hb) as (Hlen & Hlen' & Hrows).
  repeat split; try assumption; try lia.
  intros n t r Hn.
  destruct (nth_error_same_length b_mat (fst pth) n _ Hlen Hn) as [i Hi].
  destruct (nth_error_same_length (fst pth) (snd pth) n _ (eq_sym Hlen') Hi) as [j Hj].
  destruct (Hrows n i j Hi Hj) as (ti & pj & Hti & Hpj & Hrow).
  rewrite Hrow in Hn. injection Hn as <- <-.
  exists (pj - ti), j. simpl. repeat split; try assumption.
  rewrite Hpj. f_equal. lia.
Qed.

End OffsetExtraction.

Section AlignerCall.
Import Frame Dtw.
Local Open Scope Q_scope.

Variable dtw_path_single :
  list (option Q) -> list (option Q) -> qnum -> qnum -> Q -> Q -> Q -> Z -> result path.
Variable median_interval : list Z -> Q.
Variable percentile : list (option Q) -> list Q -> result (list (option Q)).

Let align_args := Dtw.align_args median_interval.
Let align_penalty := Dtw.align_penalty dtw_path_single median_interval percentile.

Lemma ffill_from_length prev l : List.length (ffill_from prev l) = List.length l.
Proof.
  revert prev. induction l as [|[v|] l IH]; intros prev; simpl;
    [reflexivity| |]; f_equal; apply IH.
Qed.

Lemma filled_values_length name f :
  List.length (filled_values name f) = List.length f.
Proof.
  unfold filled_values, bfill, ffill.
  rewrite length_rev, ffill_from_length, length_rev, ffill_from_length.
  apply length_map.
Qed.

Lemma ffill_all_nan n : ffill_from None (repeat None n) = repeat None n.
Proof. induction n as [|n IH]; simpl; [reflexivity|]. f_equal. exact IH. Qed.

Lemma rev_repeat {A : Type} (x : A) n : rev (repeat x n) = repeat x n.
Proof.
  induction n as [|n IH]; simpl; [reflexivity|].
  rewrite IH. clear IH. induction n as [|n IH]; simpl; [reflexivity|].
  f_equal. exact IH.
Qed.

(** A column that is missing throughout is still missing after the fill. *)
Lemma filled_values_all_nan name f :
  (forall tr, In tr f -> cols (snd tr) name = None) ->
  filled_values name f = repeat None (List.length f).
Proof.
  intros Hall. unfold filled_values, bfill, ffill.
  assert (Hmap : map (fun tr : Z * row => cols (snd tr) name) f
                 = repeat None (List.length f)).
  { induction f as [|tr f IH]; simpl; [reflexivity|].
    rewrite (Hall tr) by (left; reflexivity). f_equal.
    apply IH. intros x Hx. apply Hall. right. exact Hx. }
  rewrite Hmap, ffill_all_nan, rev_repeat, ffill_all_nan, rev_repeat.
  reflexivity.
Qed.


(** C8, as the code has it.  The arrays are swapped exactly when the
    comparison frame has strictly more rows than the reference frame;
    the aligner then gets the comparison array, the longer one, first and
    the reference array second, so that its first array is never the
    shorter; the two index sequences of the path it returns are exchanged
    after a swap and only then. *)
Theorem swap_when_comparison_longer (pr : Q) (t_mat p_mat : frame) (par0 : string) :
  let a := align_args pr t_mat p_mat par0 in
  let x1 := filled_values par0 t_mat in
  let x2 := filled_values par0 p_mat in
  (a_flipped a = true <-> (List.length t_mat < List.length p_mat)%nat) /\
  ((List.length t_mat < List.length p_mat)%nat -> a_x1 a = x2 /\ a_x2 a = x1) /\
  ((List.length p_mat <= List.length t_mat)%nat ->
     a_flipped a = false /\ a_x1 a = x1 /\ a_x2 a = x2) /\
  (List.length (a_x2 a) <= List.length (a_x1 a))%nat /\
  (forall q1 q2 pth,
     percentile x1 [5; 95] = Ok q1 -> percentile x2 [5; 95] = Ok q2 ->
     dtw_path_single (a_x1 a) (a_x2 a) (a_r1 a) (a_r2 a) 500 100 (11 # 10) 0 = Ok pth ->
     align_penalty pr t_mat p_mat par0
     = Ok (if a_flipped a then (snd pth, fst pth) else pth)).
Proof.
  intros a x1 x2.
  assert (L1 : List.length x1 = List.length t_mat) by apply filled_values_length.
  assert (L2 : List.length x2 = List.length p_mat) by apply filled_values_length.
  subst a. unfold align_penalty, Dtw.align_penalty, align_args, Dtw.align_args.
  fold x1 x2. rewrite L1, L2.
  destruct (List.length t_mat <? List.length p_mat)%nat eqn:Hcmp; simpl.
  - apply Nat.ltb_lt in Hcmp. repeat split; try lia; try reflexivity.
    intros q1 q2 pth Hq1 Hq2 Hp. rewrite Hq1, Hq2. simpl. rewrite Hp. reflexivity.
  - apply Nat.ltb_ge in Hcmp. repeat split; try lia; try reflexivity; try discriminate.
    intros q1 q2 pth Hq1 Hq2 Hp. rewrite Hq1, Hq2. simpl. rewrite Hp. reflexivity.
Qed.

End AlignerCall.

Section TrainerOffsets.
Import Frame Dtw.
Local Open Scope Z_scope.

Variable dtw_path_single :
  list (option Q) -> list (option Q) -> qnum -> qnum -> Q -> Q -> Q -> Z -> result path.
Variable dtw_std : list (option Q) -> list (option Q) -> result path.
Variable median_interval : list Z -> Q.
Variable percentile : list (option Q) -> list Q -> result (list (option Q)).
Variable largest_range : frame -> list string -> result (list string).
Variable speed_offset : frame -> frame -> list string -> result (option Q).
Variable craft : list string.
Variable trainer : string.
Variable penalty : bool.
Variables speed_pen mag_pen : Q.

Let dtw_craft :=
  Dtw.dtw_craft dtw_path_single dtw_std median_interval percentile largest_range
    speed_offset trainer penalty speed_pen mag_pen.
Let dtw_loop :=
  Dtw.dtw_loop dtw_path_single dtw_std median_interval percentile largest_range
    speed_offset trainer penalty speed_pen mag_pen.
Let dtw :=
  Dtw.dtw dtw_path_single dtw_std median_interval percentile largest_range
    speed_offset craft trainer penalty speed_pen mag_pen.

Lemma lookup_insert_eq (d : dict) k v : lookup (insert k v d) k = Ok v.
Proof.
  induction d as [|[k' v'] d IH]; simpl.
  - rewrite String.eqb_refl. reflexivity.
  - destruct (String.eqb k' k) eqn:Hk; simpl.
    + rewrite String.eqb_refl. reflexivity.
    + rewrite Hk. exact IH.
Qed.

Lemma lookup_insert_ne (d : dict) k k' v :
  k <> k' -> lookup (insert k v d) k' = lookup d k'.
Proof.
  intros Hne. induction d as [|[k0 v0] d IH]; simpl.
  - destruct (String.eqb k k') eqn:Hk; [|reflexivity].
    apply String.eqb_eq in Hk. contradiction.
  - destruct (String.eqb k0 k) eqn:Hk0; simpl.
    + apply String.eqb_eq in Hk0. subst k0.
      destruct (String.eqb k k') eqn:Hk; [|reflexivity].
      apply String.eqb_eq in Hk. contradiction.
    + destruct (String.eqb k0 k'); [reflexivity|exact IH].
Qed.

Lemma lookup_frame_insert_eq (d : dict) k f :
  lookup_frame (insert k (VFrame f) d) k = Ok f.
Proof. unfold lookup_frame. rewrite lookup_insert_eq. reflexivity. Qed.

Lemma lookup_frame_insert_ne (d : dict) k k' v :
  k <> k' -> lookup_frame (insert k v d) k' = lookup_frame d k'.
Proof. intros H. unfold lookup_frame. rewrite lookup_insert_ne by exact H. reflexivity. Qed.

Lemma index_shift_speed f off : index (shift_speed f off) = index f.
Proof. unfold index, shift_speed. rewrite map_map. reflexivity. Qed.

Lemma index_zero_offsets f : index (zero_offsets f) = index f.
Proof. unfold index, zero_offsets. rewrite map_map. reflexivity. Qed.

Lemma zero_offsets_rows f n t r :
  nth_error (zero_offsets f) n = Some (t, r) -> offsets r = Some 0.
Proof.
  unfold zero_offsets. rewrite nth_error_map.
  destruct (nth_error f n) as [[t0 r0]|]; simpl; [|discriminate].
  intros H; injection H as <- <-. reflexivity.
Qed.

(** Every frame of the dictionary built at the start of the pass is a
    frame of [self.plsm] without its duplicated labels. *)
Lemma subset_frames (self_plsm : dict) : forall cs acc plsm0,
  (forall k f, lookup_frame acc k = Ok f ->
     exists f0, lookup_frame self_plsm k = Ok f0 /\ f = drop_duplicated [] f0) ->
  subset self_plsm cs acc = Ok plsm0 ->
  forall k f, lookup_frame plsm0 k = Ok f ->
    exists f0, lookup_frame self_plsm k = Ok f0 /\ f = drop_duplicated [] f0.
Proof.
  induction cs as [|c cs IH]; intros acc plsm0 Hacc; simpl.
  - intros H; injection H as <-. exact Hacc.
  - destruct (lookup_frame self_plsm c) as [fc|] eqn:Hc; simpl; [|discriminate].
    apply IH. intros k f.
    destruct (String.eqb c k) eqn:Hck.
    + apply String.eqb_eq in Hck. subst k. rewrite lookup_frame_insert_eq.
      intros H; injection H as <-. eauto.
    + apply String.eqb_neq in Hck. rewrite lookup_frame_insert_ne by exact Hck.
      apply Hacc.
Qed.

Lemma dtw_craft_trainer_kept pr k idx st st' :
  (k ++ "_offset")%string <> trainer ->
  trainer_kept trainer idx st -> dtw_craft pr k st = Ok st' -> trainer_kept trainer idx st'.
Proof.
  intros Hkey [Hlk Hidx]. unfold dtw_craft, Dtw.dtw_craft.
  destruct (lookup_frame (s_plsm st) k) as [p_mat|] eqn:Hp; simpl; [|discriminate].
  destruct (if (1 <? _)%nat then _ else _) as [par2|]; simpl; [|discriminate].
  destruct (if contains "themis" (lower k) then _ else _) as [p_mat'|] eqn:Hp';
    simpl; [|discriminate].
  destruct (warp _ _ _ _ _ _ _ _ _ _ _ _) as [w|]; simpl; [|discriminate].
  destruct (offset_frame _ _ _) as [b_mat|]; simpl; [|discriminate].
  intros H; injection H as <-. unfold Dtw.trainer_kept; simpl.
  rewrite lookup_frame_insert_ne by exact Hkey.
  destruct (String.eqb k trainer) eqn:Hk.
  - apply String.eqb_eq in Hk. subst k. rewrite lookup_frame_insert_eq.
    split; [reflexivity|].
    rewrite Hlk in Hp. injection Hp as <-.
    destruct (contains "themis" (lower trainer)).
    + destruct (speed_offset _ _ _) as [off|]; simpl in Hp'; [|discriminate].
      injection Hp' as <-. rewrite index_shift_speed. exact Hidx.
    + injection Hp' as <-. exact Hidx.
  - apply String.eqb_neq in Hk. rewrite lookup_frame_insert_ne by exact Hk.
    split; assumption.
Qed.

Lemma dtw_loop_trainer_kept pr idx : forall ks st st',
  (forall k, In k ks -> (k ++ "_offset")%string <> trainer) ->
  trainer_kept trainer idx st -> dtw_loop pr ks st = Ok st' -> trainer_kept trainer idx st'.
Proof.
  induction ks as [|k ks IH]; intros st st' Hkeys Hst; simpl.
  - intros H; injection H as <-. exact Hst.
  - destruct (dtw_craft pr k st) as [st1|] eqn:H1.
    + unfold dtw_craft in H1. rewrite H1. simpl. apply IH.
      * intros k' Hk'. apply Hkeys. right. exact Hk'.
      * apply (dtw_craft_trainer_kept pr k idx st st1); [|exact Hst|exact H1].
        apply Hkeys. left. reflexivity.
    + unfold dtw_craft in H1. rewrite H1. simpl. discriminate.
Qed.

(** What one turn of the loop stores under the offset key of [k] is the
    re-indexed frame of the path found for [k]. *)
Lemma dtw_craft_stores_offset_frame pr k st st' :
  dtw_craft pr k st = Ok st' ->
  exists p_mat p_mat' pth b_mat,
    lookup_frame (s_plsm st) k = Ok p_mat /\
    index p_mat' = index p_mat /\
    offset_frame (s_t_mat st') p_mat' pth = Ok b_mat /\
    lookup_frame (s_plsm st') (k ++ "_offset") = Ok b_mat.
Proof.
  unfold dtw_craft, Dtw.dtw_craft.
  destruct (lookup_frame (s_plsm st) k) as [p_mat|] eqn:Hp; simpl; [|discriminate].
  destruct (if (1 <? _)%nat then _ else _) as [par2|]; simpl; [|discriminate].
  destruct (if contains "themis" (lower k) then _ else _) as [p_mat'|] eqn:Hp';
    simpl; [|discriminate].
  destruct (warp _ _ _ _ _ _ _ _ _ _ _ _) as [w|]; simpl; [|discriminate].
  destruct (offset_frame _ _ _) as [b_mat|] eqn:Hb; simpl; [|discriminate].
  intros H; injection H as <-. simpl.
  exists p_mat, p_mat', (fst w), b_mat. repeat split.
  - destruct (contains "themis" (lower k)).
    + destruct (speed_offset _ _ _) as [off|]; simpl in Hp'; [|discriminate].
      injection Hp' as <-. apply index_shift_speed.
    + injection Hp' as <-. reflexivity.
  - exact Hb.
  - apply lookup_frame_insert_eq.
Qed.

(** C10. When the pass completes, the frame stored under the trainer's
    offset key gives every one of its rows the offset zero; and (no key
    of a comparison spacecraft's offset frame being the trainer's name)
    its rows are those of the trainer's series: its index is the
    trainer's index without the duplicated labels. *)
Theorem trainer_offsets_zero (pr : Q) (self_par : par_value) (self_plsm plsm' : dict) :
  dtw pr self_par self_plsm = Ok plsm' ->
  exists f,
    lookup_frame plsm' (trainer ++ "_offset") = Ok f /\
    (forall n t r, nth_error f n = Some (t, r) -> offsets r = Some 0) /\
    ((forall k, In k (tl craft) -> (k ++ "_offset")%string <> trainer) ->
     exists f0,
       lookup_frame self_plsm trainer = Ok f0 /\
       index f = index (drop_duplicated [] f0)).
Proof.
  unfold dtw, Dtw.dtw.
  destruct (subset self_plsm craft []) as [plsm0|] eqn:Hsub; simpl; [|discriminate].
  destruct (lookup_frame plsm0 trainer) as [t_mat|] eqn:Ht; simpl; [|discriminate].
  destruct (Dtw.dtw_loop _ _ _ _ _ _ _ _ _ _ _ _ _) as [st|] eqn:Hloop; simpl;
    [|discriminate].
  intros H; injection H as <-.
  exists (zero_offsets (s_t_mat st)). repeat split.
  - apply lookup_frame_insert_eq.
  - apply zero_offsets_rows.
  - intros Hkeys.
    destruct (subset_frames self_plsm craft [] plsm0) with (k := trainer) (f := t_mat)
      as (f0 & Hf0 & Hdd); try assumption.
    { intros k f. unfold lookup_frame. simpl. discriminate. }
    exists f0. split; [exact Hf0|].
    rewrite index_zero_offsets.
    assert (Hk : trainer_kept trainer (index t_mat) st).
    { apply (dtw_loop_trainer_kept pr (index t_mat) (tl craft)
               (mkstate t_mat self_par None plsm0) st Hkeys).
      - split; [exact Ht|reflexivity].
      - exact Hloop. }
    destruct Hk as [_ Hidx]. rewrite Hidx, Hdd. reflexivity.
Qed.

End TrainerOffsets.

Section PlaneSolverExamples.
Import Linalg Examples.
Local Open Scope R_scope.

Lemma solve_plane_unit_normal_witness :
  det3 axes_matrix <> 0 /\ axes_times <> vzero /\
  exists vna vn vm,
    solve_plane zero_pivot axes_matrix axes_times = Ok (vna, Normal vn, Fin vm) /\
    mulv axes_matrix vna = axes_times /\ vna <> vzero /\
    norm vn = 1 /\ Rabs (norm vn - 1) <= / 1000000000 /\
    0 < vm /\ vm = 1 / norm vna.
Proof.
  assert (Hd : det3 axes_matrix <> 0) by (unfold axes_matrix, det3; simpl; lra).
  assert (Ht : axes_times <> vzero).
  { unfold axes_times, vzero. intros H. injection H as H. lra. }
  split; [exact Hd|]. split; [exact Ht|].
  exact (solve_plane_unit_normal zero_pivot axes_matrix axes_times Hd Ht).
Defined.

End PlaneSolverExamples.

Section AlignmentExamples.
Import Frame Dtw Refine Examples.
Local Open Scope Z_scope.

Lemma offsets_from_path_witness :
  path_fits (flat_frame 400 wind_index) (flat_frame 400 dscovr_index)
    (lockstep_path 5 5) /\
  has_duplicates (index (flat_frame 400 dscovr_index)) = false /\
  exists b_mat,
    offset_frame (flat_frame 400 wind_index) (flat_frame 400 dscovr_index)
      (lockstep_path 5 5) = Ok b_mat /\
    List.length b_mat = List.length (fst (lockstep_path 5 5)) /\
    forall n i j,
      nth_error (fst (lockstep_path 5 5)) n = Some i ->
      nth_error (snd (lockstep_path 5 5)) n = Some j ->
      exists ti pj r,
        nth_error (index (flat_frame 400 wind_index)) i = Some ti /\
        nth_error (index (flat_frame 400 dscovr_index)) j = Some pj /\
        nth_error b_mat n = Some (pj - (pj - ti), r) /\
        offsets r = Some (pj - ti) /\
        cols r = cols (row_at (flat_frame 400 dscovr_index) pj).
Proof.
  assert (Hfit : path_fits (flat_frame 400 wind_index) (flat_frame 400 dscovr_index)
                   (lockstep_path 5 5)).
  { unfold path_fits. simpl. repeat split; repeat constructor. }
  assert (Hdup : has_duplicates (index (flat_frame 400 dscovr_index)) = false)
    by reflexivity.
  split; [exact Hfit|]. split; [exact Hdup|].
  exact (offsets_from_path _ _ _ Hfit Hdup).
Defined.

Lemma offset_round_trip_witness :
  path_fits (flat_frame 400 wind_index) (flat_frame 400 ace_index)
    (lockstep_path 5 5) /\
  has_duplicates (index (flat_frame 400 ace_index)) = false /\
  exists b_mat,
    offset_frame (flat_frame 400 wind_index) (flat_frame 400 ace_index)
      (lockstep_path 5 5) = Ok b_mat /\
    List.length b_mat = List.length (snd (lockstep_path 5 5)) /\
    forall n t r,
      nth_error b_mat n = Some (t, r) ->
      exists o j,
        offsets r = Some o /\
        nth_error (snd (lockstep_path 5 5)) n = Some j /\
        nth_error (index (flat_frame 400 ace_index)) j = Some (t + o).
Proof.
  assert (Hfit : path_fits (flat_frame 400 wind_index) (flat_frame 400 ace_index)
                   (lockstep_path 5 5)).
  { unfold path_fits. simpl. repeat split; repeat constructor. }
  assert (Hdup : has_duplicates (index (flat_frame 400 ace_index)) = false)
    by reflexivity.
  split; [exact Hfit|]. split; [exact Hdup|].
  exact (offset_round_trip _ _ _ Hfit Hdup).
Defined.

End AlignmentExamples.

Section AlignerCallExamples.
Import Frame Dtw Examples.
Local Open Scope Q_scope.

(** C8, a counterexample.  With a reference of two rows and a
    comparison of three, the arrays are swapped and the aligner gets the
    comparison array, the longer one, in first place and the reference
    array, the shorter one, in second place. *)
Lemma longer_series_goes_first :
  a_flipped (align_args whole_second_cadence 85 short_frame long_frame "Bx") = true /\
  a_x1 (align_args whole_second_cadence 85 short_frame long_frame "Bx")
  = filled_values "Bx" long_frame /\
  a_x2 (align_args whole_second_cadence 85 short_frame long_frame "Bx")
  = filled_values "Bx" short_frame /\
  List.length (a_x1 (align_args whole_second_cadence 85 short_frame long_frame "Bx")) = 3%nat /\
  List.length (a_x2 (align_args whole_second_cadence 85 short_frame long_frame "Bx")) = 2%nat /\
  ~ (List.length (a_x1 (align_args whole_second_cadence 85 short_frame long_frame "Bx"))
     <= List.length (a_x2 (align_args whole_second_cadence 85 short_frame long_frame "Bx")))%nat.
Proof.
  repeat split; try reflexivity.
  vm_compute. lia.
Qed.

Lemma swap_when_comparison_longer_witness :
  (List.length short_frame < List.length long_frame)%nat /\
  align_penalty lockstep whole_second_cadence nan_percentile 85 short_frame long_frame "Bx"
  = Ok (snd (lockstep_path 3 2), fst (lockstep_path 3 2)).
Proof.
  assert (Hlt : (List.length short_frame < List.length long_frame)%nat)
    by (simpl; lia).
  split; [exact Hlt|].
  destruct (swap_when_comparison_longer lockstep whole_second_cadence nan_percentile 85
              short_frame long_frame "Bx") as (Hf & Hs & _ & _ & Hp).
  destruct (Hs Hlt) as [E1 E2].
  rewrite (Hp [None; None] [None; None] (lockstep_path 3 2)).
  - destruct Hf as [_ Hf]. rewrite (Hf Hlt). reflexivity.
  - reflexivity.
  - reflexivity.
  - rewrite E1, E2. reflexivity.
Defined.

End AlignerCallExamples.

Section RefinementExamples.
Import Frame Dtw Refine Examples.
Local Open Scope Z_scope.

Lemma trainer_offsets_zero_witness :
  exists plsm',
    dtw_three 85 plsm_three = Ok plsm' /\
    exists f,
      lookup_frame plsm' "Wind_offset" = Ok f /\
      (forall n t r, nth_error f n = Some (t, r) -> offsets r = Some 0) /\
      exists f0,
        lookup_frame plsm_three "Wind" = Ok f0 /\
        index f = index (drop_duplicated [] f0).
Proof.
  destruct (dtw_three 85 plsm_three) as [plsm'|e] eqn:Hrun;
    [|vm_compute in Hrun; discriminate Hrun].
  exists plsm'. split; [reflexivity|].
  destruct (trainer_offsets_zero lockstep lockstep_std whole_second_cadence nan_percentile first_column
              no_speed_offset three_craft "Wind" true 10 (2 # 10)%Q 85%Q PNone
              plsm_three plsm' Hrun) as (f & Hf & Hz & Hidx).
  exists f. split; [exact Hf|]. split; [exact Hz|].
  apply Hidx. intros k [<-|[<-|[]]]; discriminate.
Defined.

(** Only the key the loop variable [i] was left at can be re-read: every
    other entry of the dictionary is what it was. *)
Lemma rewindow_other_keys (read_in : string -> Z -> Z -> result frame)
    (pd_s pd_e : Z) : forall ks i plsm plsm',
  craft_of (craft_of i) = craft_of i ->
  rewindow read_in pd_s pd_e ks i plsm = Ok plsm' ->
  forall k, k <> craft_of i -> lookup plsm' k = lookup plsm k.
Proof.
  induction ks as [|j ks IH]; intros i plsm plsm' Hi; simpl.
  - intros H; injection H as <-. reflexivity.
  - destruct (lookup_delta plsm _) as [[o|]|]; simpl; try discriminate.
    destruct (read_in _ _ _) as [f|]; simpl; [|discriminate].
    intros Hrun k Hk.
    rewrite (IH (craft_of i) _ plsm' (f_equal craft_of Hi) Hrun k)
      by (rewrite Hi; exact Hk).
    apply lookup_insert_ne. congruence.
Qed.

(** C6 at a failing input: Wind as trainer with DSCOVR 60 s and ACE 120 s
    behind it, no near-Earth spacecraft, a window of two hours.  After the
    coarse pass the bulk offsets are the medians, 60 s and 120 s; ACE,
    the last key, is then read again over the window moved by 120 s,
    while DSCOVR still has the frame of the coarse pass and not one read
    over the window moved by 60 s. *)
Theorem rewindow_rereads_last_key_only :
  exists plsm1 plsm f_ace f_dscovr,
    dtw_three 85 plsm_three = Ok plsm1 /\
    off_keys [] "Wind" plsm1 = ["DSCOVR_offset"; "ACE_offset"]%string /\
    before_fine read_window dtw_three [] "Wind" 0 (sec 7200) 85 plsm_three = Ok plsm /\
    lookup_delta plsm "ave_offset_DSCOVR" = Ok (Some (sec 60)) /\
    lookup_delta plsm "ave_offset_ACE" = Ok (Some (sec 120)) /\
    lookup_frame plsm "ACE" = Ok f_ace /\
    index f_ace = [sec 120; sec 7320] /\
    lookup_frame plsm "DSCOVR" = Ok f_dscovr /\
    index f_dscovr = dscovr_index /\
    index f_dscovr <> [sec 60; sec 7260].
Proof.
  destruct (dtw_three 85 plsm_three) as [plsm1|e] eqn:Hrun1;
    [|vm_compute in Hrun1; discriminate Hrun1].
  destruct (before_fine read_window dtw_three [] "Wind" 0 (sec 7200) 85 plsm_three)
    as [plsm|e] eqn:Hrun; [|vm_compute in Hrun; discriminate Hrun].
  destruct (lookup_frame plsm "ACE") as [f_ace|e] eqn:Hace.
  2:{ vm_compute in Hrun. injection Hrun as <-. vm_compute in Hace. discriminate Hace. }
  destruct (lookup_frame plsm "DSCOVR") as [f_d|e] eqn:Hd.
  2:{ vm_compute in Hrun. injection Hrun as <-. vm_compute in Hd. discriminate Hd. }
  exists plsm1, plsm, f_ace, f_d.
  vm_compute in Hrun1. injection Hrun1 as <-.
  vm_compute in Hrun. injection Hrun as <-.
  vm_compute in Hace. injection Hace as <-.
  vm_compute in Hd. injection Hd as <-.
  repeat split; try reflexivity.
  intros H. vm_compute in H. discriminate H.
Qed.

End RefinementExamples.

Section GateExamples.
Import Linalg Predict Examples.
Local Open Scope R_scope.

Lemma norm_along_x (s : R) : s * s = 1 -> norm (mkvec s 0 0) = 1.
Proof.
  intros Hs. unfold norm, dot; simpl.
  replace (s * s + 0 * 0 + 0 * 0) with 1 by lra. apply sqrt_1.
Qed.

Lemma vdiv_one (a : vec3) : vdiv a 1 = a.
Proof. destruct a as [x y z]. apply vec3_eq; unfold vdiv; simpl; field. Qed.

Lemma theta_sunward : theta sunward = 0.
Proof.
  unfold theta, dot, sunward, degrees; simpl.
  replace (-1 * -1 + 0 * 0 + 0 * 0) with 1 by ring.
  rewrite acos_1. field. apply PI_neq0.
Qed.

Lemma theta_reversed : theta (mkvec 1 0 0) = 180.
Proof.
  unfold theta, dot, sunward, degrees; simpl.
  replace (1 * -1 + 0 * 0 + 0 * 0) with (Ropp 1) by ring.
  rewrite acos_opp, acos_1. field. apply PI_neq0.
Qed.

Lemma exceeds_sunward : exceeds 70 (Normal sunward) = false.
Proof.
  unfold exceeds. destruct (Rlt_dec 70 (theta sunward)) as [H|H]; [|reflexivity].
  rewrite theta_sunward in H. lra.
Qed.

Lemma exceeds_reversed : exceeds 70 (Normal (mkvec 1 0 0)) = true.
Proof.
  unfold exceeds. destruct (Rlt_dec 70 (theta (mkvec 1 0 0))) as [H|H]; [reflexivity|].
  rewrite theta_reversed in H. lra.
Qed.

Lemma unit_matrix_det : det3 unit_matrix <> 0.
Proof. unfold unit_matrix, det3, vsub; simpl. lra. Qed.

Lemma along_x_nonzero (s : R) : s <> 0 -> mkvec s 0 0 <> vzero.
Proof. intros Hs H. unfold vzero in H. injection H as H. contradiction. Qed.

Lemma solve_sunward lapack :
  solve_plane lapack unit_matrix (mkvec 1 0 0)
  = Ok (mkvec (-1) 0 0, Normal sunward, Fin 1).
Proof.
  rewrite (solve_plane_complete lapack unit_matrix (mkvec (-1) 0 0) (mkvec 1 0 0)).
  - rewrite norm_along_x by lra. rewrite vdiv_one.
    replace (1 / 1) with 1 by field. reflexivity.
  - apply unit_matrix_det.
  - apply vec3_eq; unfold unit_matrix, mulv, dot, vsub; simpl; ring.
  - apply along_x_nonzero. lra.
Qed.

Lemma solve_reversed lapack :
  solve_plane lapack unit_matrix (mkvec (-1) 0 0)
  = Ok (mkvec 1 0 0, Normal (mkvec 1 0 0), Fin 1).
Proof.
  rewrite (solve_plane_complete lapack unit_matrix (mkvec 1 0 0) (mkvec (-1) 0 0)).
  - rewrite norm_along_x by lra. rewrite vdiv_one.
    replace (1 / 1) with 1 by field. reflexivity.
  - apply unit_matrix_det.
  - apply vec3_eq; unfold unit_matrix, mulv, dot, vsub; simpl; ring.
  - apply along_x_nonzero. lra.
Qed.

Section Steps.

Variable lapack_singular : mat3 -> vec3 -> result vec3.
Variable to_timedelta : num -> result (option Z).
Variable formats : option Z -> bool.
Variable date2num : option Z -> result num.
Variable cut_deg : R.
Variable earth_craft : list string.
Variables dtw_stt dtw_end : Z.

Let emit := Predict.emit to_timedelta formats date2num earth_craft.
Let pred_event :=
  Predict.pred_event lapack_singular to_timedelta formats date2num cut_deg
    earth_craft dtw_stt dtw_end.
Let pred_loop :=
  Predict.pred_loop lapack_singular to_timedelta formats date2num cut_deg
    earth_craft dtw_stt dtw_end.

(** An event within the cutoff is predicted with its own plane. *)
Lemma pred_event_within j ev d pm tm vna vn vm esp :
  skipped dtw_stt dtw_end (ev_time ev) = false ->
  position_matrix (ev_pos ev) = Ok pm ->
  time_vector (ev_tvals ev) = Ok tm ->
  solve_plane lapack_singular pm tm = Ok (vna, vn, vm) ->
  exceeds cut_deg vn = false ->
  leaked_esp earth_craft = Ok esp ->
  pred_event j ev d
  = emit j ev vn vm
      (set_entry d (S j) (mkentry (ev_tvals ev) (ev_pos ev) None None)).
Proof.
  intros Hskip Hpm Htm Hsol Hth Hesp. unfold pred_event, Predict.pred_event.
  rewrite Hskip, Hpm; simpl. rewrite Htm; simpl. rewrite Hsol; simpl.
  rewrite Hesp; simpl. rewrite Hth. reflexivity.
Qed.

(** An event beyond the cutoff is skipped when the list of the
    spacecraft [esp] names is empty. *)
Lemma pred_event_skips j ev d pm tm vna vn vm esp :
  skipped dtw_stt dtw_end (ev_time ev) = false ->
  position_matrix (ev_pos ev) = Ok pm ->
  time_vector (ev_tvals ev) = Ok tm ->
  solve_plane lapack_singular pm tm = Ok (vna, vn, vm) ->
  exceeds cut_deg vn = true ->
  leaked_esp earth_craft = Ok esp ->
  st_velo (stores d esp) = [] ->
  pred_event j ev d
  = Ok (set_entry d (S j) (mkentry (ev_tvals ev) (ev_pos ev) None None)).
Proof.
  intros Hskip Hpm Htm Hsol Hth Hesp Hv. unfold pred_event, Predict.pred_event.
  rewrite Hskip, Hpm; simpl. rewrite Htm; simpl. rewrite Hsol; simpl.
  rewrite Hesp; simpl. rewrite Hth, Hv. reflexivity.
Qed.

(** An event beyond the cutoff takes the last pair of the lists of the
    spacecraft [esp] names. *)
Lemma pred_event_replaces j ev d pm tm vna vn vm esp vs vm' ns vn' :
  skipped dtw_stt dtw_end (ev_time ev) = false ->
  position_matrix (ev_pos ev) = Ok pm ->
  time_vector (ev_tvals ev) = Ok tm ->
  solve_plane lapack_singular pm tm = Ok (vna, vn, vm) ->
  exceeds cut_deg vn = true ->
  leaked_esp earth_craft = Ok esp ->
  st_velo (stores d esp) = vs ++ [vm'] ->
  st_nvec (stores d esp) = ns ++ [vn'] ->
  pred_event j ev d
  = emit j ev vn' vm'
      (set_entry d (S j) (mkentry (ev_tvals ev) (ev_pos ev) None None)).
Proof.
  intros Hskip Hpm Htm Hsol Hth Hesp Hv Hn. unfold pred_event, Predict.pred_event.
  rewrite Hskip, Hpm; simpl. rewrite Htm; simpl. rewrite Hsol; simpl.
  rewrite Hesp; simpl. rewrite Hth, Hv, Hn.
  replace (0 <? List.length (vs ++ [vm']))%nat with true
    by (symmetry; apply Nat.ltb_lt; rewrite length_app; simpl; lia).
  unfold last_item. rewrite !rev_app_distr. reflexivity.
Qed.

Lemma pred_loop_cons j ev rest d :
  pred_loop j (ev :: rest) d
  = bind (pred_event j ev d) (fun d' => pred_loop (S j) rest d').
Proof. reflexivity. Qed.

End Steps.

(** An event whose offsets are all zero has a solved vector of zero: its
    plane is the normal of NaN with infinite speed, which the gate lets
    through whatever the cutoff, and it is recorded as the plane of the
    event. *)
Lemma pred_event_nan_plane lapack_singular to_timedelta formats date2num cut_deg
    earth_craft dtw_stt dtw_end j ev d pm esp :
  skipped dtw_stt dtw_end (ev_time ev) = false ->
  position_matrix (ev_pos ev) = Ok pm ->
  time_vector (ev_tvals ev) = Ok vzero ->
  det3 pm <> 0 ->
  leaked_esp earth_craft = Ok esp ->
  pred_event lapack_singular to_timedelta formats date2num cut_deg earth_craft
    dtw_stt dtw_end j ev d
  = emit to_timedelta formats date2num earth_craft j ev NanNormal Inf
      (set_entry d (S j) (mkentry (ev_tvals ev) (ev_pos ev) None None)).
Proof.
  intros Hskip Hpm Htm Hdet Hesp.
  apply (pred_event_within lapack_singular to_timedelta formats date2num cut_deg
           earth_craft dtw_stt dtw_end j ev d pm vzero vzero NanNormal Inf esp);
    try assumption; [|reflexivity].
  apply solve_plane_zero. apply linalg_solve_complete; [exact Hdet|].
  destruct pm as [[a b c] [d0 e f] [g h i]].
  apply vec3_eq; unfold mulv, dot, vzero; simpl; ring.
Qed.

(** With the conversions of [Examples], a prediction for a plane of
    numbers is stored when the messages can be written. *)
Lemma predict_one_number ev v s p d esp :
  s <> 0 ->
  predict_one whole_timedelta formats_time days ev (Normal v) (Fin s) p d esp
  = if tg_fmt_ok (ev_target ev esp)
    then Ok (set_store d esp
               (mkstore
                  (st_time (stores d esp) ++
                     [Fin (IZR (ev_time ev +
                                Int_part (dot v (vsub (tg_pos (ev_target ev esp)) p)
                                          / s * 1000000000))
                           / 86400000000000)])
                  (st_plsm (stores d esp) ++ [ev_speed ev])
                  (st_velo (stores d esp) ++ [Fin s])
                  (st_dist (stores d esp) ++
                     [Fin (dot v (vsub (tg_pos (ev_target ev esp)) p))])
                  (st_nvec (stores d esp) ++ [Normal v])))
    else Ok d.
Proof.
  intros Hs. unfold predict_one, ndot, ndiv.
  destruct (Req_dec_T s 0) as [H|H]; [contradiction|].
  unfold whole_timedelta, bind. cbn [option_map formats_time andb days].
  destruct (tg_fmt_ok (ev_target ev esp)); reflexivity.
Qed.

(** C2, at a failing input.  Two near-Earth spacecraft, THEMIS_B and
    THEMIS_C, and a cutoff of 70 degrees.  The first event passes the
    gate (its normal is the sunward axis) and a prediction is stored for
    THEMIS_B alone, the messages for THEMIS_C failing.  The second event
    fails the gate at 180 degrees.  The gate reads the lists of the last
    spacecraft of the list, THEMIS_C, finds them empty and skips the
    event: nothing is predicted, although the valid pair of the first
    event is stored for THEMIS_B.  With the same dictionary and THEMIS_B
    last in the list the event takes that pair and is predicted. *)
Theorem gate_reads_last_craft_only :
  exists d1 d2 d2',
    pred_event zero_pivot whole_timedelta formats_time days 70
      ["THEMIS_B"; "THEMIS_C"]%string 0 (sec 36000) 0
      sunward_event_b_only init_dict = Ok d1 /\
    st_nvec (stores d1 "THEMIS_B") = [Normal sunward] /\
    st_velo (stores d1 "THEMIS_B") = [Fin 1] /\
    exceeds 70 (Normal sunward) = false /\
    st_velo (stores d1 "THEMIS_C") = [] /\
    solve_plane zero_pivot unit_matrix (mkvec (-1) 0 0)
    = Ok (mkvec 1 0 0, Normal (mkvec 1 0 0), Fin 1) /\
    exceeds 70 (Normal (mkvec 1 0 0)) = true /\
    pred_earth zero_pivot whole_timedelta formats_time days 70
      ["THEMIS_B"; "THEMIS_C"]%string 0 (sec 36000)
      [sunward_event_b_only; reversed_event] = Ok d2 /\
    stores d2 = stores d1 /\
    entries d2
    = (2%nat, mkentry (ev_tvals reversed_event) (ev_pos reversed_event) None None)
      :: entries d1 /\
    pred_event zero_pivot whole_timedelta formats_time days 70
      ["THEMIS_C"; "THEMIS_B"]%string 0 (sec 36000) 1 reversed_event d1 = Ok d2' /\
    st_nvec (stores d2' "THEMIS_B") = [Normal sunward; Normal sunward] /\
    hd_error (entries d2')
    = Some (2%nat, mkentry (ev_tvals reversed_event) (ev_pos reversed_event)
                     (Some (Normal sunward, Fin 1)) (Some (mkvec 0 0 0))).
Proof.
  assert (H10 : (1 : R) <> 0) by lra.
  pose proof (pred_event_within zero_pivot whole_timedelta formats_time days 70
                ["THEMIS_B"; "THEMIS_C"]%string 0%Z (sec 36000) 0%nat
                sunward_event_b_only init_dict unit_matrix (mkvec 1 0 0)
                _ _ _ "THEMIS_C"%string eq_refl eq_refl eq_refl
                (solve_sunward zero_pivot) exceeds_sunward eq_refl) as H1.
  unfold emit in H1. cbn [ev_pos sunward_event_b_only unit_positions bind] in H1.
  cbn [predict_targets] in H1.
  rewrite (predict_one_number _ _ _ _ _ _ H10) in H1.
  cbn [ev_target sunward_event_b_only target_b_only tg_fmt_ok String.eqb Ascii.eqb
       Bool.eqb bind] in H1.
  rewrite (predict_one_number _ _ _ _ _ _ H10) in H1.
  cbn [ev_target sunward_event_b_only target_b_only tg_fmt_ok String.eqb Ascii.eqb
       Bool.eqb bind] in H1.
  match type of H1 with _ = Ok ?d => set (d1 := d) in * end.
  pose proof (pred_event_skips zero_pivot whole_timedelta formats_time days 70
                ["THEMIS_B"; "THEMIS_C"]%string 0%Z (sec 36000) 1%nat
                reversed_event d1 unit_matrix (mkvec (-1) 0 0)
                _ _ _ "THEMIS_C"%string eq_refl eq_refl eq_refl
                (solve_reversed zero_pivot) exceeds_reversed eq_refl eq_refl) as H2.
  pose proof (pred_event_replaces zero_pivot whole_timedelta formats_time days 70
                ["THEMIS_C"; "THEMIS_B"]%string 0%Z (sec 36000) 1%nat
                reversed_event d1 unit_matrix (mkvec (-1) 0 0)
                _ _ _ "THEMIS_B"%string [] (Fin 1) [] (Normal sunward)
                eq_refl eq_refl eq_refl
                (solve_reversed zero_pivot) exceeds_reversed eq_refl eq_refl eq_refl)
    as H3.
  unfold emit in H3. cbn [ev_pos reversed_event unit_positions bind] in H3.
  cbn [predict_targets] in H3.
  rewrite (predict_one_number _ _ _ _ _ _ H10) in H3.
  cbn [ev_target reversed_event target_b tg_fmt_ok bind] in H3.
  rewrite (predict_one_number _ _ _ _ _ _ H10) in H3.
  cbn [ev_target reversed_event target_b tg_fmt_ok bind] in H3.
  match type of H3 with _ = Ok ?d => set (d2' := d) in * end.
  exists d1, (set_entry d1 2
                (mkentry (ev_tvals reversed_event) (ev_pos reversed_event) None None)),
         d2'.
  split; [exact H1|]. split; [reflexivity|]. split; [reflexivity|].
  split; [exact exceeds_sunward|]. split; [reflexivity|].
  split; [exact (solve_reversed zero_pivot)|]. split; [exact exceeds_reversed|].
  split.
  { unfold pred_earth. rewrite pred_loop_cons, H1. unfold bind at 1.
    rewrite pred_loop_cons, H2. reflexivity. }
  split; [reflexivity|]. split; [reflexivity|].
  split; [exact H3|]. split; reflexivity.
Qed.

End GateExamples.

Section PlaneGeometry.
Import Linalg Geometry.
Local Open Scope R_scope.

Lemma mat3_eq (m n : mat3) :
  row1 m = row1 n -> row2 m = row2 n -> row3 m = row3 n -> m = n.
Proof. destruct m, n; simpl; intros; subst; reflexivity. Qed.

(** X1. For an anchor that is not the origin, the points that satisfy
    the plane equation of [solve_coeff] are the points at distance zero
    along the normal from the anchor; the anchor is one of them. *)
Theorem solve_coeff_plane (pi vn q : vec3) :
  pi <> vzero ->
  (plane_value (solve_coeff pi vn) q = 0 <-> dot vn (vsub q pi) = 0) /\
  plane_value (solve_coeff pi vn) pi = 0.
Proof.
  intros Hpi. pose proof (norm_pos pi Hpi) as Hn.
  assert (Hval : forall p, plane_value (solve_coeff pi vn) p
                           = norm pi * dot vn (vsub p pi)).
  { intros p. unfold plane_value, solve_coeff, dot, vsub; simpl. ring. }
  split.
  - rewrite Hval. split.
    + intros H. apply Rmult_integral in H. destruct H as [H|H]; [lra|exact H].
    + intros ->. ring.
  - rewrite Hval. unfold dot, vsub; simpl. ring.
Qed.

(** X2. With the anchor at the origin all four coefficients are zero, so
    that every point satisfies the equation: the plane is lost. *)
Theorem solve_coeff_origin (vn q : vec3) :
  solve_coeff vzero vn = mkcoeff 0 0 0 0 /\
  plane_value (solve_coeff vzero vn) q = 0.
Proof.
  assert (Hn : norm vzero = 0).
  { unfold norm, dot, vzero; simpl.
    replace (0 * 0 + 0 * 0 + 0 * 0) with 0 by ring. apply sqrt_0. }
  assert (Hc : solve_coeff vzero vn = mkcoeff 0 0 0 0).
  { unfold solve_coeff. rewrite Hn. unfold dot, vzero; simpl. f_equal; ring. }
  split; [exact Hc|]. rewrite Hc. unfold plane_value; simpl. ring.
Qed.

(** X3. For unit vectors [a] and [b] that are not opposite, the matrix of
    [arb_rotation_matrix] takes [a] to [b]. *)
Theorem arb_rotation_maps (a b : vec3) :
  dot a a = 1 -> dot b b = 1 -> 1 + dot a b <> 0 ->
  mulv (arb_rotation_matrix a b) a = b.
Proof.
  intros Ha Hb Hc. destruct a as [a1 a2 a3]. destruct b as [b1 b2 b3].
  unfold dot in Ha, Hb, Hc; simpl in Ha, Hb, Hc.
  set (A := a1 * a1 + a2 * a2 + a3 * a3) in *.
  set (B := b1 * b1 + b2 * b2 + b3 * b3) in *.
  set (c := a1 * b1 + a2 * b2 + a3 * b3) in *.
  apply vec3_eq;
    cbv [arb_rotation_matrix mulv madd mdiv mmul transpose skew cross
         identity3 vadd vdiv dot vx vy vz row1 row2 row3]; fold c;
    apply (Rmult_eq_reg_l (1 + c)); try exact Hc.
  - transitivity ((1 + c) * (a1 + b1 * A - c * a1) + (c * c - A * B) * a1).
    + unfold A, B, c. field. exact Hc.
    + rewrite Ha, Hb. ring.
  - transitivity ((1 + c) * (a2 + b2 * A - c * a2) + (c * c - A * B) * a2).
    + unfold A, B, c. field. exact Hc.
    + rewrite Ha, Hb. ring.
  - transitivity ((1 + c) * (a3 + b3 * A - c * a3) + (c * c - A * B) * a3).
    + unfold A, B, c. field. exact Hc.
    + rewrite Ha, Hb. ring.
Qed.

Lemma cross_norm_sqr (a b : vec3) :
  dot (cross a b) (cross a b) = dot a a * dot b b - dot a b * dot a b.
Proof. destruct a, b. unfold cross, dot; simpl. ring. Qed.

Ltac orth_entry Hc Hs k2 v1 v2 v3 c :=
  match goal with
  | |- _ = ?d =>
      transitivity
        (d + k2 * (1 - c * c - (v1 * v1 + v2 * v2 + v3 * v3)) / ((1 + c) * (1 + c)));
      [ field; exact Hc | rewrite Hs; field; exact Hc ]
  end.

Lemma skew_rotation_orthogonal (v : vec3) (c : R) :
  1 + c <> 0 -> dot v v = 1 - c * c ->
  mmul (madd (madd identity3 (skew v)) (mdiv (mmul (skew v) (skew v)) (1 + c)))
       (transpose
          (madd (madd identity3 (skew v)) (mdiv (mmul (skew v) (skew v)) (1 + c))))
  = identity3.
Proof.
  intros Hc Hs. destruct v as [v1 v2 v3]. unfold dot in Hs; simpl in Hs.
  apply mat3_eq; apply vec3_eq;
    cbv [mulv madd mdiv mmul transpose skew identity3 vadd vdiv dot
         vx vy vz row1 row2 row3].
  - orth_entry Hc Hs (- (v2 * v2 + v3 * v3)) v1 v2 v3 c.
  - orth_entry Hc Hs (v1 * v2) v1 v2 v3 c.
  - orth_entry Hc Hs (v1 * v3) v1 v2 v3 c.
  - orth_entry Hc Hs (v1 * v2) v1 v2 v3 c.
  - orth_entry Hc Hs (- (v1 * v1 + v3 * v3)) v1 v2 v3 c.
  - orth_entry Hc Hs (v2 * v3) v1 v2 v3 c.
  - orth_entry Hc Hs (v1 * v3) v1 v2 v3 c.
  - orth_entry Hc Hs (v2 * v3) v1 v2 v3 c.
  - orth_entry Hc Hs (- (v1 * v1 + v2 * v2)) v1 v2 v3 c.
Qed.

(** X4. For unit vectors [a] and [b] that are not opposite, the matrix of
    [arb_rotation_matrix] is orthogonal: times its transpose it is the
    identity, so it keeps lengths and angles. *)
Theorem arb_rotation_orthogonal (a b : vec3) :
  dot a a = 1 -> dot b b = 1 -> 1 + dot a b <> 0 ->
  mmul (arb_rotation_matrix a b) (transpose (arb_rotation_matrix a b)) = identity3.
Proof.
  intros Ha Hb Hc. unfold arb_rotation_matrix.
  apply skew_rotation_orthogonal; [exact Hc|].
  rewrite cross_norm_sqr, Ha, Hb. ring.
Qed.

End PlaneGeometry.

Section PredictionRun.
Import Linalg Predict Examples Cases.
Local Open Scope R_scope.

Variable lapack_singular : mat3 -> vec3 -> result vec3.
Variable to_timedelta : num -> result (option Z).
Variable formats : option Z -> bool.
Variable date2num : option Z -> result num.
Variable cut_deg : R.
Variable earth_craft : list string.
Variables dtw_stt dtw_end : Z.

Let linalg_solve := Linalg.linalg_solve lapack_singular.
Let solve_plane := Linalg.solve_plane lapack_singular.
Let predict_one := Predict.predict_one to_timedelta formats date2num.
Let predict_targets := Predict.predict_targets to_timedelta formats date2num.
Let emit := Predict.emit to_timedelta formats date2num earth_craft.
Let pred_event :=
  Predict.pred_event lapack_singular to_timedelta formats date2num cut_deg
    earth_craft dtw_stt dtw_end.
Let pred_loop :=
  Predict.pred_loop lapack_singular to_timedelta formats date2num cut_deg
    earth_craft dtw_stt dtw_end.
Let pred_earth :=
  Predict.pred_earth lapack_singular to_timedelta formats date2num cut_deg
    earth_craft dtw_stt dtw_end.

(** X5. For a nonsingular position matrix, a plane of numbers that
    [solve_plane] returns gives each of the three spacecraft back its own
    offset: the distance of the spacecraft from the plane through the
    reference, along the normal, divided by the speed is the time offset
    the plane was solved from. *)
Theorem plane_reproduces_offsets (p : mat3) (t vna vn : vec3) (vm : R) :
  det3 p <> 0 ->
  solve_plane p t = Ok (vna, Normal vn, Fin vm) ->
  dot vn (row1 p) / vm = vx t /\
  dot vn (row2 p) / vm = vy t /\
  dot vn (row3 p) / vm = vz t.
Proof.
  intros Hdet. unfold solve_plane, Linalg.solve_plane.
  destruct (Linalg.linalg_solve lapack_singular p t) as [x|e] eqn:Hs;
    simpl; [|discriminate].
  destruct (Req_dec_T (norm x) 0) as [H0|H0]; [discriminate|].
  intros H. injection H as <- <- <-.
  pose proof (linalg_solve_sound lapack_singular p t x Hdet Hs) as Hm.
  destruct t as [t1 t2 t3]. unfold mulv in Hm. injection Hm as H1 H2 H3.
  destruct x as [x1 x2 x3]. set (n := norm (mkvec x1 x2 x3)) in *.
  destruct p as [[a b c] [d e f] [g h i]]. unfold dot in *; simpl in *.
  repeat split.
  - rewrite <- H1. field. exact H0.
  - rewrite <- H2. field. exact H0.
  - rewrite <- H3. field. exact H0.
Qed.

Lemma pred_loop_app : forall evs1 evs2 j d,
  pred_loop j (evs1 ++ evs2) d
  = bind (pred_loop j evs1 d)
      (fun d1 => pred_loop (j + List.length evs1) evs2 d1).
Proof.
  induction evs1 as [|ev evs1 IH]; intros evs2 j d; simpl.
  - rewrite Nat.add_0_r. reflexivity.
  - unfold pred_loop in *. simpl.
    destruct (Predict.pred_event _ _ _ _ _ _ _ _ j ev d) as [d'|e]; simpl;
      [|reflexivity].
    rewrite IH. replace (S j + List.length evs1)%nat with (j + S (List.length evs1))%nat by lia.
    reflexivity.
Qed.

(** X6. The error of the solver is not caught: when [np.linalg.solve]
    raises for an event that is not skipped, the whole run raises that
    error, whatever was predicted before it. *)
Theorem solver_error_aborts_run (evs1 rest : list event) (ev : event)
    (d d1 : event_dict) (pm : mat3) (tm : vec3) (e : exn) :
  pred_loop 0 evs1 d = Ok d1 ->
  skipped dtw_stt dtw_end (ev_time ev) = false ->
  position_matrix (ev_pos ev) = Ok pm ->
  time_vector (ev_tvals ev) = Ok tm ->
  linalg_solve pm tm = Raise e ->
  pred_loop 0 (evs1 ++ ev :: rest) d = Raise e.
Proof.
  intros H1 Hskip Hpm Htm Hsing.
  rewrite pred_loop_app, H1. simpl.
  unfold Predict.pred_event. rewrite Hskip, Hpm; simpl. rewrite Htm; simpl.
  unfold Linalg.solve_plane. fold linalg_solve. rewrite Hsing. reflexivity.
Qed.

Lemma lists_parallel_predict_one ev vn vm p d esp d' :
  In esp earth_craft ->
  Invariants.lists_parallel earth_craft d ->
  predict_one ev vn vm p d esp = Ok d' ->
  Invariants.lists_parallel earth_craft d'.
Proof.
  intros Hin Hd. unfold predict_one, Predict.predict_one.
  destruct (to_timedelta _) as [dt|]; simpl; [|discriminate].
  destruct (formats _ && tg_fmt_ok (ev_target ev esp)).
  2:{ intros H; injection H as <-. exact Hd. }
  destruct (date2num _) as [x|]; simpl; [|discriminate].
  intros H; injection H as <-.
  intros k. unfold set_store; simpl.
  destruct (String.eqb k esp) eqn:Hk; [|exact (Hd k)].
  apply String.eqb_eq in Hk. subst k.
  destruct (Hd esp) as (H1 & H2 & H3 & H4 & _). simpl.
  rewrite !length_app. simpl. repeat split; try lia.
  intros Hout. contradiction.
Qed.

Lemma lists_parallel_targets ev vn vm p : forall l d d',
  incl l earth_craft ->
  Invariants.lists_parallel earth_craft d ->
  predict_targets ev vn vm p l d = Ok d' ->
  Invariants.lists_parallel earth_craft d'.
Proof.
  induction l as [|esp l IH]; intros d d' Hincl Hd; simpl.
  - intros H; injection H as <-. exact Hd.
  - destruct (Predict.predict_one to_timedelta formats date2num ev vn vm p d esp)
      as [d1|] eqn:H1; simpl; [|discriminate].
    apply IH.
    + intros x Hx. apply Hincl. right. exact Hx.
    + apply (lists_parallel_predict_one ev vn vm p d esp d1); [|exact Hd|exact H1].
      apply Hincl. left. reflexivity.
Qed.

Lemma lists_parallel_emit j ev vn vm d d' :
  Invariants.lists_parallel earth_craft d ->
  emit j ev vn vm d = Ok d' -> Invariants.lists_parallel earth_craft d'.
Proof.
  intros Hd. unfold emit, Predict.emit.
  destruct (ev_pos ev) as [|p0 ps]; simpl; [discriminate|].
  apply lists_parallel_targets.
  - apply incl_refl.
  - intros esp. exact (Hd esp).
Qed.

Lemma lists_parallel_pred_event j ev d d' :
  Invariants.lists_parallel earth_craft d ->
  pred_event j ev d = Ok d' -> Invariants.lists_parallel earth_craft d'.
Proof.
  intros Hd. unfold pred_event, Predict.pred_event.
  destruct (skipped dtw_stt dtw_end (ev_time ev)).
  { intros H; injection H as <-. exact Hd. }
  set (d0 := set_entry d (S j) _).
  assert (Hd0 : Invariants.lists_parallel earth_craft d0) by (intros esp; exact (Hd esp)).
  destruct (position_matrix (ev_pos ev)) as [pm|]; simpl; [|discriminate].
  destruct (time_vector (ev_tvals ev)) as [tm|]; simpl; [|discriminate].
  destruct (Linalg.solve_plane lapack_singular pm tm) as [[[vna vn] vm]|]; simpl;
    [|discriminate].
  destruct (leaked_esp earth_craft) as [esp|]; simpl; [|discriminate].
  destruct (exceeds cut_deg vn && (0 <? List.length (st_velo (stores d esp)))%nat).
  - destruct (last_item (st_velo (stores d esp))) as [vm'|]; simpl; [|discriminate].
    destruct (last_item (st_nvec (stores d esp))) as [vn'|]; simpl; [|discriminate].
    apply lists_parallel_emit. exact Hd0.
  - destruct (exceeds cut_deg vn && (List.length (st_velo (stores d esp)) <? 1)%nat).
    + intros H; injection H as <-. exact Hd0.
    + apply lists_parallel_emit. exact Hd0.
Qed.

Lemma lists_parallel_pred_loop : forall evs j d d',
  Invariants.lists_parallel earth_craft d ->
  pred_loop j evs d = Ok d' -> Invariants.lists_parallel earth_craft d'.
Proof.
  induction evs as [|ev evs IH]; intros j d d' Hd; simpl.
  - intros H; injection H as <-. exact Hd.
  - destruct (pred_event j ev d) as [d1|] eqn:Hev.
    + unfold pred_event in Hev. rewrite Hev. simpl. apply IH.
      apply (lists_parallel_pred_event j ev d d1 Hd Hev).
    + unfold pred_event in Hev. rewrite Hev. simpl. discriminate.
Qed.

(** X7. When the run completes, the five lists it keeps for a spacecraft
    (times, trainer speeds, speeds, distances, normals) have the same
    length, one entry per prediction, and the lists of a spacecraft that
    is not among the near-Earth ones are empty. *)
Theorem prediction_lists_parallel (evs : list event) (d' : event_dict) :
  pred_earth evs = Ok d' ->
  forall esp,
    List.length (st_time (stores d' esp)) = List.length (st_nvec (stores d' esp)) /\
    List.length (st_plsm (stores d' esp)) = List.length (st_nvec (stores d' esp)) /\
    List.length (st_velo (stores d' esp)) = List.length (st_nvec (stores d' esp)) /\
    List.length (st_dist (stores d' esp)) = List.length (st_nvec (stores d' esp)) /\
    (~ In esp earth_craft -> st_nvec (stores d' esp) = []).
Proof.
  intros Hrun esp.
  apply (lists_parallel_pred_loop evs 0%nat init_dict d'); [|exact Hrun].
  intros k. simpl. repeat split; reflexivity.
Qed.

End PredictionRun.

Section PredictionRunExamples.
Import Linalg Predict Examples Cases.
Local Open Scope R_scope.

(** X8. With no near-Earth spacecraft in the list, the name the gate
    reads was never bound: an event that is not skipped and whose
    geometry can be solved raises [NameError]. *)
Theorem no_earth_craft_name_error lapack_singular to_timedelta formats date2num
    cut_deg dtw_stt dtw_end
    (j : nat) (ev : event) (d : event_dict) (pm : mat3) (tm : vec3) :
  skipped dtw_stt dtw_end (ev_time ev) = false ->
  position_matrix (ev_pos ev) = Ok pm ->
  time_vector (ev_tvals ev) = Ok tm ->
  det3 pm <> 0 ->
  pred_event lapack_singular to_timedelta formats date2num cut_deg [] dtw_stt dtw_end
    j ev d
  = Raise NameError.
Proof.
  intros Hskip Hpm Htm Hdet. unfold pred_event.
  rewrite Hskip, Hpm; simpl. rewrite Htm; simpl.
  unfold solve_plane. rewrite (linalg_solve_nonsingular lapack_singular pm tm Hdet).
  unfold bind at 2.
  destruct (Req_dec_T _ 0); reflexivity.
Qed.

Lemma axes_solution_solves : mulv axes_matrix axes_solution = axes_times.
Proof.
  apply vec3_eq; unfold axes_matrix, axes_solution, axes_times, mulv, dot; simpl; field.
Qed.

Lemma axes_matrix_det : det3 axes_matrix <> 0.
Proof. unfold axes_matrix, det3; simpl. lra. Qed.

Lemma plane_reproduces_offsets_witness :
  det3 axes_matrix <> 0 /\
  solve_plane zero_pivot axes_matrix axes_times
  = Ok (axes_solution, Normal (vdiv axes_solution (norm axes_solution)),
        Fin (1 / norm axes_solution)) /\
  dot (vdiv axes_solution (norm axes_solution)) (row1 axes_matrix)
    / (1 / norm axes_solution) = vx axes_times.
Proof.
  assert (Hx : axes_solution <> vzero).
  { unfold axes_solution, vzero. intros H. injection H as H.
    assert (H10 : / 10 <> 0) by (apply Rinv_neq_0_compat; lra). contradiction. }
  assert (Hs : solve_plane zero_pivot axes_matrix axes_times
               = Ok (axes_solution, Normal (vdiv axes_solution (norm axes_solution)),
                     Fin (1 / norm axes_solution)))
    by (apply solve_plane_complete;
        [apply axes_matrix_det|apply axes_solution_solves|exact Hx]).
  split; [exact axes_matrix_det|]. split; [exact Hs|].
  exact (proj1 (plane_reproduces_offsets zero_pivot _ _ _ _ _ axes_matrix_det Hs)).
Defined.

Lemma same_place_det :
  det3 (mkmat (vsub (mkvec 1 2 3) (mkvec 1 2 3))
              (vsub (mkvec 1 2 3) (mkvec 1 2 3))
              (vsub (mkvec 1 2 3) (mkvec 1 2 3))) = 0.
Proof. unfold det3, vsub; simpl. ring. Qed.

Lemma solver_error_aborts_run_witness :
  pred_loop zero_pivot whole_timedelta formats_time days 70 ["THEMIS_B"%string]
    0 (sec 36000) 0 [same_place_event; sunward_event] init_dict
  = Raise LinAlgError.
Proof.
  apply (solver_error_aborts_run zero_pivot whole_timedelta formats_time days 70
           ["THEMIS_B"%string] 0%Z (sec 36000) [] [sunward_event] same_place_event
           init_dict init_dict _ (mkvec 1 2 3) LinAlgError
           eq_refl eq_refl eq_refl eq_refl).
  unfold linalg_solve.
  destruct (Req_dec_T _ 0) as [H|H]; [reflexivity|].
  exfalso. apply H. exact same_place_det.
Defined.

Lemma one_event_run :
  exists d',
    pred_earth zero_pivot whole_timedelta formats_time days 70 ["THEMIS_B"%string]
      0 (sec 36000) [sunward_event] = Ok d' /\
    List.length (st_nvec (stores d' "THEMIS_B")) = 1%nat.
Proof.
  assert (H10 : (1 : R) <> 0) by lra.
  pose proof (pred_event_within zero_pivot whole_timedelta formats_time days 70
                ["THEMIS_B"%string] 0%Z (sec 36000) 0%nat
                sunward_event init_dict unit_matrix (mkvec 1 0 0)
                _ _ _ "THEMIS_B"%string eq_refl eq_refl eq_refl
                (solve_sunward zero_pivot) exceeds_sunward eq_refl) as H1.
  unfold emit in H1. cbn [ev_pos sunward_event unit_positions bind] in H1.
  cbn [predict_targets] in H1.
  rewrite (predict_one_number _ _ _ _ _ _ H10) in H1.
  cbn [ev_target sunward_event target_b tg_fmt_ok bind] in H1.
  eexists. split.
  - unfold pred_earth. rewrite pred_loop_cons, H1. reflexivity.
  - reflexivity.
Qed.

Lemma prediction_lists_parallel_witness :
  exists d',
    pred_earth zero_pivot whole_timedelta formats_time days 70 ["THEMIS_B"%string]
      0 (sec 36000) [sunward_event] = Ok d' /\
    List.length (st_nvec (stores d' "THEMIS_B")) = 1%nat /\
    List.length (st_time (stores d' "THEMIS_B"))
    = List.length (st_nvec (stores d' "THEMIS_B")) /\
    st_nvec (stores d' "ACE") = [].
Proof.
  destruct one_event_run as [d' [Hrun Hlen]].
  exists d'. split; [exact Hrun|]. split; [exact Hlen|].
  destruct (prediction_lists_parallel zero_pivot whole_timedelta formats_time days 70
              ["THEMIS_B"%string] 0%Z (sec 36000) [sunward_event] _ Hrun
              "THEMIS_B"%string) as (H1 & _).
  split; [exact H1|].
  destruct (prediction_lists_parallel zero_pivot whole_timedelta formats_time days 70
              ["THEMIS_B"%string] 0%Z (sec 36000) [sunward_event] _ Hrun
              "ACE"%string) as (_ & _ & _ & _ & H5).
  apply H5. intros [H|[]]. discriminate H.
Defined.

Lemma no_earth_craft_name_error_witness :
  pred_event zero_pivot whole_timedelta formats_time days 70 [] 0 (sec 36000) 0
    sunward_event init_dict
  = Raise NameError.
Proof.
  exact (no_earth_craft_name_error zero_pivot whole_timedelta formats_time days
           70 0%Z (sec 36000) 0%nat
           sunward_event init_dict unit_matrix (mkvec 1 0 0)
           eq_refl eq_refl eq_refl unit_matrix_det).
Defined.

End PredictionRunExamples.

Section FrameFacts.
Import Frame Dtw Invariants Examples Cases.
Local Open Scope Z_scope.

Lemma existsb_eqb_In (t : Z) (l : list Z) : existsb (Z.eqb t) l = true <-> In t l.
Proof.
  rewrite existsb_exists. split.
  - intros (x & Hx & He). apply Z.eqb_eq in He. subst. exact Hx.
  - intros H. exists t. split; [exact H|apply Z.eqb_refl].
Qed.

Lemma existsb_eqb_not_In (t : Z) (l : list Z) : existsb (Z.eqb t) l = false <-> ~ In t l.
Proof.
  rewrite <- existsb_eqb_In. destruct (existsb (Z.eqb t) l); split; intros;
    try discriminate; try reflexivity; try (exfalso; auto).
Qed.

Lemma drop_duplicated_labels t : forall f seen,
  In t (index (drop_duplicated seen f)) <-> In t (index f) /\ ~ In t seen.
Proof.
  induction f as [|[t0 r0] f IH]; intros seen; simpl.
  - tauto.
  - destruct (existsb (Z.eqb t0) seen) eqn:Hs.
    + apply existsb_eqb_In in Hs. rewrite IH. split.
      * intros [H1 H2]. split; [right; exact H1|exact H2].
      * intros [[H1|H1] H2]; [subst; contradiction|split; assumption].
    + apply existsb_eqb_not_In in Hs. simpl. rewrite IH. simpl. split.
      * intros [H|[H1 H2]]; [subst; split; [left; reflexivity|exact Hs]|].
        split; [right; exact H1|tauto].
      * intros [[H1|H1] H2]; [left; exact H1|].
        destruct (Z.eq_dec t0 t) as [E|E]; [left; exact E|].
        right. split; [exact H1|]. intros [H|H]; [contradiction|contradiction].
Qed.

Lemma drop_duplicated_unique : forall f seen,
  has_duplicates (index (drop_duplicated seen f)) = false.
Proof.
  induction f as [|[t0 r0] f IH]; intros seen; simpl; [reflexivity|].
  destruct (existsb (Z.eqb t0) seen) eqn:Hs; [apply IH|].
  simpl. rewrite IH, orb_false_r. apply existsb_eqb_not_In.
  rewrite drop_duplicated_labels. intros [_ H]. apply H. left. reflexivity.
Qed.

Lemma drop_duplicated_row t : forall f seen,
  ~ In t seen -> row_at (drop_duplicated seen f) t = row_at f t.
Proof.
  induction f as [|[t0 r0] f IH]; intros seen Hs; simpl; [reflexivity|].
  destruct (existsb (Z.eqb t0) seen) eqn:H0.
  - apply existsb_eqb_In in H0.
    destruct (Z.eqb t0 t) eqn:E; [apply Z.eqb_eq in E; subst; contradiction|].
    apply IH, Hs.
  - simpl. destruct (Z.eqb t0 t) eqn:E; [reflexivity|].
    apply IH. apply Z.eqb_neq in E. intros [H|H]; [contradiction|contradiction].
Qed.

(** X9. Dropping the duplicated labels of a frame, as the alignment
    passes do first, leaves each label of the frame exactly once, with
    the row of its first occurrence: the re-indexing that follows never
    meets a duplicated label. *)
Theorem drop_duplicated_keeps_first_rows (f : frame) :
  has_duplicates (index (drop_duplicated [] f)) = false /\
  (forall t, In t (index (drop_duplicated [] f)) <-> In t (index f)) /\
  (forall t, row_at (drop_duplicated [] f) t = row_at f t) /\
  (forall labels, exists b,
     reindex (drop_duplicated [] f) labels = Ok b /\ index b = labels).
Proof.
  repeat split.
  - apply drop_duplicated_unique.
  - intros H. apply drop_duplicated_labels in H. tauto.
  - intros H. apply drop_duplicated_labels. split; [exact H|intros []].
  - intros t. apply drop_duplicated_row. intros [].
  - intros labels. unfold reindex. rewrite drop_duplicated_unique.
    eexists. split; [reflexivity|].
    unfold index. rewrite map_map. simpl. apply map_id.
Qed.

Lemma ffill_from_some_no_nan v : forall l, ~ In None (ffill_from (Some v) l).
Proof.
  intros l. revert v. induction l as [|[w|] l IH]; intros v; simpl.
  - tauto.
  - intros [H|H]; [discriminate|exact (IH w H)].
  - intros [H|H]; [discriminate|exact (IH v H)].
Qed.

Lemma ffill_nan_iff_head (l : list (option Q)) :
  In None (ffill l) <-> exists r, l = None :: r.
Proof.
  unfold ffill. destruct l as [|[v|] l]; simpl.
  - split; [tauto|intros [r H]; discriminate].
  - split.
    + intros [H|H]; [discriminate|]. exfalso. exact (ffill_from_some_no_nan v l H).
    + intros [r H]. discriminate.
  - split; [intros _; eauto|intros _; left; reflexivity].
Qed.

Lemma ffill_from_last_nan : forall l prev,
  l <> [] -> last (ffill_from prev l) (Some 0%Q) = None ->
  prev = None /\ Forall (fun x => x = None) l.
Proof.
  induction l as [|x l IH]; intros prev Hne; [contradiction|].
  destruct l as [|y l].
  - destruct x as [v|]; simpl; [discriminate|].
    intros ->. split; [reflexivity|repeat constructor].
  - destruct x as [v|].
    + change (ffill_from prev (Some v :: y :: l))
        with (Some v :: ffill_from (Some v) (y :: l)).
      intros H.
      assert (Hl : last (ffill_from (Some v) (y :: l)) (Some 0%Q) = None).
      { destruct (ffill_from (Some v) (y :: l)) eqn:E; [|exact H].
        destruct y; discriminate E. }
      destruct (IH (Some v) ltac:(discriminate) Hl) as [Hc _]. discriminate.
    + change (ffill_from prev (None :: y :: l))
        with (prev :: ffill_from prev (y :: l)).
      intros H.
      assert (Hl : last (ffill_from prev (y :: l)) (Some 0%Q) = None).
      { destruct (ffill_from prev (y :: l)) eqn:E; [|exact H].
        destruct y; discriminate E. }
      destruct (IH prev ltac:(discriminate) Hl) as [Hp Hall].
      split; [exact Hp|]. constructor; [reflexivity|exact Hall].
Qed.

Lemma fill_nan_iff (l : list (option Q)) :
  In None (bfill (ffill l)) <-> l <> [] /\ Forall (fun x => x = None) l.
Proof.
  split.
  - unfold bfill. rewrite <- in_rev, ffill_nan_iff_head. intros [r Hr].
    assert (Hl : ffill l = rev r ++ [None]).
    { rewrite <- (rev_involutive (ffill l)), Hr. reflexivity. }
    assert (Hne : l <> []).
    { intros ->. simpl in Hl. destruct (rev r); discriminate. }
    split; [exact Hne|].
    apply (ffill_from_last_nan l None Hne).
    unfold ffill in Hl. rewrite Hl. apply last_last.
  - intros [Hne Hall].
    assert (Hl : l = repeat None (List.length l)).
    { clear Hne. induction Hall as [|x l Hx _ IH]; simpl; [reflexivity|].
      subst x. f_equal. exact IH. }
    rewrite Hl. unfold bfill, ffill.
    rewrite ffill_all_nan, rev_repeat, ffill_all_nan, rev_repeat.
    destruct l; [contradiction|]. left. reflexivity.
Qed.

(** X10. The array of a column handed to the aligner, filled forward and
    then backward, still holds a NaN only when the frame has rows and the
    column is missing in every one of them. *)
Theorem filled_values_nan_iff (name : string) (f : frame) :
  In None (filled_values name f) <->
  f <> [] /\ forall tr, In tr f -> cols (snd tr) name = None.
Proof.
  unfold filled_values. rewrite fill_nan_iff. split.
  - intros [Hne Hall]. split.
    + intros ->. apply Hne. reflexivity.
    + intros tr Hin. rewrite Forall_forall in Hall.
      apply (Hall (cols (snd tr) name)).
      apply (in_map (fun tr0 : Z * row => cols (snd tr0) name)). exact Hin.
  - intros [Hne Hall]. split.
    + intros H. apply map_eq_nil in H. contradiction.
    + rewrite Forall_forall. intros x Hx. apply in_map_iff in Hx.
      destruct Hx as (tr & <- & Hin). apply Hall, Hin.
Qed.

End FrameFacts.

Section OffsetFrameFacts.
Import Frame Dtw Invariants Examples Cases.
Local Open Scope Z_scope.

(** X11. The rows of the re-indexed frame stand under the reference time
    stamps of the path, and carry the two indices of the path; so when
    the reference index is in increasing order and the path never steps
    back on the reference side, the index of the re-indexed frame is in
    increasing order too, as the slice by labels taken from it needs. *)
Theorem offset_frame_on_reference_clock (t_mat p_mat : frame) (pth : path)
    (b_mat : frame) :
  offset_frame t_mat p_mat pth = Ok b_mat ->
  (forall n i, nth_error (fst pth) n = Some i ->
     exists ti r,
       nth_error (index t_mat) i = Some ti /\
       nth_error b_mat n = Some (ti, r) /\
       train_ind r = Some i /\ match_ind r = nth_error (snd pth) n) /\
  (nondecreasing (index t_mat) -> nondecreasing_nat (fst pth) ->
   nondecreasing (index b_mat)).
Proof.
  intros Hb. destruct (offset_frame_rows _ _ _ _ Hb) as (Hlen & Hlen' & Hrows).
  assert (Hrow : forall n i, nth_error (fst pth) n = Some i ->
            exists ti r,
              nth_error (index t_mat) i = Some ti /\
              nth_error b_mat n = Some (ti, r) /\
              train_ind r = Some i /\ match_ind r = nth_error (snd pth) n).
  { intros n i Hi.
    destruct (nth_error_same_length (fst pth) (snd pth) n i (eq_sym Hlen') Hi)
      as [j Hj].
    destruct (Hrows n i j Hi Hj) as (ti & pj & Hti & Hpj & Hn).
    exists ti, (mkrow (cols (row_at p_mat pj)) (Some (pj - ti)) (Some i) (Some j)).
    repeat split; try assumption.
    - rewrite Hn. f_equal. f_equal. lia.
    - simpl. symmetry. exact Hj. }
  split; [exact Hrow|].
  intros Ht Hp m n x y Hmn Hx Hy.
  assert (Hm : exists tr, nth_error b_mat m = Some tr).
  { unfold index in Hx. rewrite nth_error_map in Hx.
    destruct (nth_error b_mat m); [eauto|discriminate]. }
  assert (Hn : exists tr, nth_error b_mat n = Some tr).
  { unfold index in Hy. rewrite nth_error_map in Hy.
    destruct (nth_error b_mat n); [eauto|discriminate]. }
  destruct Hm as [trm Hm], Hn as [trn Hn].
  destruct (nth_error_same_length b_mat (fst pth) m _ Hlen Hm) as [im Him].
  destruct (nth_error_same_length b_mat (fst pth) n _ Hlen Hn) as [i_n Hin].
  destruct (Hrow m im Him) as (tm & rm & Htm & Hbm & _).
  destruct (Hrow n i_n Hin) as (tn & rn & Htn & Hbn & _).
  pose proof (nth_error_index _ _ _ _ Hbm) as Hxm.
  pose proof (nth_error_index _ _ _ _ Hbn) as Hyn.
  rewrite Hx in Hxm. rewrite Hy in Hyn. injection Hxm as ->. injection Hyn as ->.
  apply (Ht im i_n tm tn); try assumption.
  apply (Hp m n im i_n); assumption.
Qed.

Lemma traverse_item_out_of_range {A : Type} (l : list A) : forall ix,
  Exists (fun i => (List.length l <= i)%nat) ix ->
  traverse (item l) ix = Raise IndexError.
Proof.
  induction ix as [|i ix IH]; intros Hex; [inversion Hex|].
  simpl. unfold item at 1. destruct (nth_error l i) as [x|] eqn:Hx; simpl; [|reflexivity].
  rewrite IH; [reflexivity|].
  inversion Hex as [? ? H|? ? H]; subst; [|exact H].
  exfalso. apply nth_error_None in H. rewrite H in Hx. discriminate.
Qed.

Lemma sub_index_unequal : forall a b,
  List.length a <> List.length b -> sub_index a b = Raise ValueError.
Proof.
  induction a as [|x a IH]; intros [|y b] Hlen; simpl in *; try reflexivity;
    try contradiction.
  rewrite IH by lia. reflexivity.
Qed.

(** X12. A path that does not fit is refused: an index beyond the rows
    of the comparison frame, or of the reference frame, raises
    [IndexError], and index arrays of two different lengths, every index
    within its frame, raise [ValueError]. *)
Theorem offset_frame_rejects (t_mat p_mat : frame) (pth : path) :
  (Exists (fun j => (List.length p_mat <= j)%nat) (snd pth) ->
   offset_frame t_mat p_mat pth = Raise IndexError) /\
  (Forall (fun j => (j < List.length p_mat)%nat) (snd pth) ->
   Exists (fun i => (List.length t_mat <= i)%nat) (fst pth) ->
   offset_frame t_mat p_mat pth = Raise IndexError) /\
  (Forall (fun j => (j < List.length p_mat)%nat) (snd pth) ->
   Forall (fun i => (i < List.length t_mat)%nat) (fst pth) ->
   List.length (fst pth) <> List.length (snd pth) ->
   offset_frame t_mat p_mat pth = Raise ValueError).
Proof.
  unfold offset_frame, iloc_index. repeat split.
  - intros Hex. rewrite traverse_item_out_of_range; [reflexivity|].
    rewrite index_length. exact Hex.
  - intros Hp Hex. rewrite <- index_length in Hp.
    destruct (traverse_item_total _ _ Hp) as [p_idx Hpi]. rewrite Hpi. simpl.
    rewrite traverse_item_out_of_range; [reflexivity|].
    rewrite index_length. exact Hex.
  - intros Hp Ht Hlen. rewrite <- index_length in Hp, Ht.
    destruct (traverse_item_total _ _ Hp) as [p_idx Hpi].
    destruct (traverse_item_total _ _ Ht) as [t_idx Hti].
    rewrite Hpi, Hti. simpl.
    destruct (traverse_item_nth _ _ _ Hpi) as [Lp _].
    destruct (traverse_item_nth _ _ _ Hti) as [Lt _].
    rewrite sub_index_unequal by lia. reflexivity.
Qed.

Lemma offset_frame_on_reference_clock_witness :
  exists b_mat,
    offset_frame (flat_frame 400 wind_index) (flat_frame 400 ace_index)
      repeating_path = Ok b_mat /\
    index b_mat = map sec [0; 1800; 1800; 3600; 7200] /\
    nondecreasing (index b_mat).
Proof.
  destruct (offset_frame (flat_frame 400 wind_index) (flat_frame 400 ace_index)
              repeating_path) as [b_mat|e] eqn:Hb;
    [|vm_compute in Hb; discriminate Hb].
  exists b_mat. split; [reflexivity|].
  destruct (offset_frame_on_reference_clock _ _ _ _ Hb) as [_ Hsorted].
  split.
  - vm_compute in Hb. injection Hb as <-. reflexivity.
  - apply Hsorted.
    + intros m n x y Hmn Hx Hy.
      assert (Hn : (n < 5)%nat)
        by (apply (proj1 (nth_error_Some (index (flat_frame 400 wind_index)) n));
            rewrite Hy; discriminate).
      destruct n as [|[|[|[|[|n]]]]]; try lia;
        destruct m as [|[|[|[|[|m]]]]]; try lia;
        vm_compute in Hx, Hy; injection Hx as <-; injection Hy as <-;
        vm_compute; discriminate.
    + intros m n x y Hmn Hx Hy.
      assert (Hn : (n < 5)%nat)
        by (apply (proj1 (nth_error_Some (fst repeating_path) n));
            rewrite Hy; discriminate).
      destruct n as [|[|[|[|[|n]]]]]; try lia;
        destruct m as [|[|[|[|[|m]]]]]; try lia;
        simpl in Hx, Hy; injection Hx as <-; injection Hy as <-; lia.
Defined.

Lemma offset_frame_rejects_witness :
  offset_frame (flat_frame 400 wind_index) (flat_frame 400 ace_index) overlong_path
  = Raise IndexError /\
  offset_frame (flat_frame 400 wind_index) (flat_frame 400 ace_index) lopsided_path
  = Raise ValueError.
Proof.
  destruct (offset_frame_rejects (flat_frame 400 wind_index)
              (flat_frame 400 ace_index) overlong_path) as (H1 & _ & _).
  destruct (offset_frame_rejects (flat_frame 400 wind_index)
              (flat_frame 400 ace_index) lopsided_path) as (_ & _ & H3).
  split.
  - apply H1. unfold overlong_path; simpl. right. left. lia.
  - apply H3; unfold lopsided_path; simpl; repeat constructor.
    discriminate.
Defined.

End OffsetFrameFacts.

Section PassKeys.
Import Frame Dtw Invariants Examples Cases.
Local Open Scope Z_scope.

Variable dtw_path_single :
  list (option Q) -> list (option Q) -> qnum -> qnum -> Q -> Q -> Q -> Z -> result path.
Variable dtw_std : list (option Q) -> list (option Q) -> result path.
Variable median_interval : list Z -> Q.
Variable percentile : list (option Q) -> list Q -> result (list (option Q)).
Variable largest_range : frame -> list string -> result (list string).
Variable speed_offset : frame -> frame -> list string -> result (option Q).
Variable craft : list string.
Variable trainer : string.
Variable penalty : bool.
Variables speed_pen mag_pen : Q.

Let dtw_craft :=
  Dtw.dtw_craft dtw_path_single dtw_std median_interval percentile largest_range
    speed_offset trainer penalty speed_pen mag_pen.
Let dtw_loop :=
  Dtw.dtw_loop dtw_path_single dtw_std median_interval percentile largest_range
    speed_offset trainer penalty speed_pen mag_pen.
Let dtw :=
  Dtw.dtw dtw_path_single dtw_std median_interval percentile largest_range
    speed_offset craft trainer penalty speed_pen mag_pen.

Lemma has_frame_insert (d : dict) k f k' :
  has_frame d k' \/ k' = k -> has_frame (insert k (VFrame f) d) k'.
Proof.
  intros H. destruct (String.eqb k k') eqn:E.
  - apply String.eqb_eq in E. subst k'. exists f. apply lookup_frame_insert_eq.
  - apply String.eqb_neq in E. destruct H as [[g Hg]|H]; [|congruence].
    exists g. rewrite lookup_frame_insert_ne by exact E. exact Hg.
Qed.

Lemma subset_has_frames (self_plsm : dict) : forall cs acc plsm0,
  subset self_plsm cs acc = Ok plsm0 ->
  forall k, has_frame acc k \/ In k cs -> has_frame plsm0 k.
Proof.
  induction cs as [|c cs IH]; intros acc plsm0; simpl.
  - intros H; injection H as <-. intros k [H|[]]. exact H.
  - destruct (lookup_frame self_plsm c) as [fc|]; simpl; [|discriminate].
    intros Hsub k Hk. apply (IH _ _ Hsub).
    destruct Hk as [Hk|[Hk|Hk]].
    + left. apply has_frame_insert. left. exact Hk.
    + left. apply has_frame_insert. right. symmetry. exact Hk.
    + right. exact Hk.
Qed.

Lemma dtw_craft_has_frames pr k st st' :
  dtw_craft pr k st = Ok st' ->
  forall k', has_frame (s_plsm st) k' \/ k' = (k ++ "_offset")%string ->
             has_frame (s_plsm st') k'.
Proof.
  unfold dtw_craft, Dtw.dtw_craft.
  destruct (lookup_frame (s_plsm st) k) as [p_mat|]; simpl; [|discriminate].
  destruct (if (1 <? _)%nat then _ else _) as [par2|]; simpl; [|discriminate].
  destruct (if contains "themis" (lower k) then _ else _) as [p_mat'|];
    simpl; [|discriminate].
  destruct (warp _ _ _ _ _ _ _ _ _ _ _ _) as [w|]; simpl; [|discriminate].
  destruct (offset_frame _ _ _) as [b_mat|]; simpl; [|discriminate].
  intros H; injection H as <-. simpl. intros k' Hk'.
  apply has_frame_insert. destruct Hk' as [Hk'|Hk']; [left|right; exact Hk'].
  apply has_frame_insert. left. exact Hk'.
Qed.

Lemma dtw_loop_has_frames pr : forall ks st st',
  dtw_loop pr ks st = Ok st' ->
  forall k', has_frame (s_plsm st) k' \/
             (exists k, In k ks /\ k' = (k ++ "_offset")%string) ->
             has_frame (s_plsm st') k'.
Proof.
  induction ks as [|k ks IH]; intros st st'; simpl.
  - intros H; injection H as <-. intros k' [H|(k & [] & _)]. exact H.
  - destruct (dtw_craft pr k st) as [st1|] eqn:H1.
    + unfold dtw_craft in H1. rewrite H1. simpl. intros Hloop k' Hk'.
      apply (IH _ _ Hloop).
      destruct Hk' as [Hk'|(k0 & [Hk0|Hk0] & E)].
      * left. apply (dtw_craft_has_frames pr k st st1 H1). left. exact Hk'.
      * left. apply (dtw_craft_has_frames pr k st st1 H1). right. subst. reflexivity.
      * right. exists k0. split; assumption.
    + unfold dtw_craft in H1. rewrite H1. simpl. discriminate.
Qed.

(** X13. When a pass completes, the dictionary it leaves holds a frame
    under the name of every spacecraft of the list, and an offset frame
    under the offset key of the trainer and of every spacecraft after the
    first of the list: of every spacecraft, when the list starts with the
    trainer. *)
Theorem dtw_leaves_frames (pr : Q) (self_par : par_value) (self_plsm plsm' : dict) :
  dtw pr self_par self_plsm = Ok plsm' ->
  (forall k, In k craft -> has_frame plsm' k) /\
  (forall k, In k (trainer :: tl craft) -> has_frame plsm' (k ++ "_offset")) /\
  (hd_error craft = Some trainer ->
   forall k, In k craft -> has_frame plsm' (k ++ "_offset")).
Proof.
  unfold dtw, Dtw.dtw.
  destruct (subset self_plsm craft []) as [plsm0|] eqn:Hsub; simpl; [|discriminate].
  destruct (lookup_frame plsm0 trainer) as [t_mat|] eqn:Ht; simpl; [|discriminate].
  destruct (Dtw.dtw_loop _ _ _ _ _ _ _ _ _ _ _ _ _) as [st|] eqn:Hloop; simpl;
    [|discriminate].
  intros H; injection H as <-.
  assert (H1 : forall k, In k craft ->
            has_frame (insert (trainer ++ "_offset") (VFrame (zero_offsets (s_t_mat st)))
                         (insert trainer (VFrame (zero_offsets (s_t_mat st)))
                            (s_plsm st))) k).
  { intros k Hk. apply has_frame_insert. left. apply has_frame_insert. left.
    apply (dtw_loop_has_frames pr _ _ _ Hloop). left. simpl.
    apply (subset_has_frames _ _ _ _ Hsub). right. exact Hk. }
  assert (H2 : forall k, In k (trainer :: tl craft) ->
            has_frame (insert (trainer ++ "_offset") (VFrame (zero_offsets (s_t_mat st)))
                         (insert trainer (VFrame (zero_offsets (s_t_mat st)))
                            (s_plsm st))) (k ++ "_offset")).
  { intros k [Hk|Hk].
    - subst k. apply has_frame_insert. right. reflexivity.
    - apply has_frame_insert. left. apply has_frame_insert. left.
      apply (dtw_loop_has_frames pr _ _ _ Hloop). right. exists k. split;
        [exact Hk|reflexivity]. }
  split; [exact H1|]. split; [exact H2|].
  intros Hhd k Hk. apply H2.
  destruct craft as [|c cs]; [contradiction|]. simpl in Hhd. injection Hhd as ->.
  exact Hk.
Qed.

Lemma lookup_frame_all_frames (d : dict) (k : string) :
  all_frames d ->
  (exists f, lookup_frame d k = Ok f) \/ lookup_frame d k = Raise KeyError.
Proof.
  intros Hall. unfold lookup_frame.
  destruct (lookup d k) as [v|e] eqn:Hl; simpl.
  - destruct (Hall k v Hl) as [f ->]. left. eauto.
  - right. clear Hall. induction d as [|[k0 v0] d IH]; simpl in Hl.
    + injection Hl as <-. reflexivity.
    + destruct (String.eqb k0 k); [discriminate|]. apply IH, Hl.
Qed.

Lemma subset_missing (self_plsm : dict) (i : string) :
  all_frames self_plsm -> lookup_frame self_plsm i = Raise KeyError ->
  forall cs acc, In i cs -> subset self_plsm cs acc = Raise KeyError.
Proof.
  intros Hall Hi. induction cs as [|c cs IH]; intros acc Hin; [contradiction|].
  simpl. destruct (lookup_frame_all_frames self_plsm c Hall) as [[f Hf]|Hf].
  - rewrite Hf. simpl. apply IH. destruct Hin as [->|Hin]; [|exact Hin].
    rewrite Hi in Hf. discriminate.
  - rewrite Hf. reflexivity.
Qed.

(** X14. A pass over a dictionary of frames in which a spacecraft of the
    list has no entry raises [KeyError]: no spacecraft is aligned. *)
Theorem dtw_missing_craft (pr : Q) (self_par : par_value) (self_plsm : dict)
    (i : string) :
  all_frames self_plsm -> In i craft ->
  lookup_frame self_plsm i = Raise KeyError ->
  dtw pr self_par self_plsm = Raise KeyError.
Proof.
  intros Hall Hin Hi. unfold dtw, Dtw.dtw.
  rewrite (subset_missing self_plsm i Hall Hi craft [] Hin). reflexivity.
Qed.

End PassKeys.

Section PassKeysExamples.
Import Frame Dtw Invariants Examples Cases.

Lemma dtw_leaves_frames_witness :
  exists plsm',
    dtw_three 85 plsm_three = Ok plsm' /\
    has_frame plsm' "DSCOVR" /\ has_frame plsm' "DSCOVR_offset" /\
    has_frame plsm' "Wind_offset".
Proof.
  destruct (dtw_three 85 plsm_three) as [plsm'|e] eqn:Hrun;
    [|vm_compute in Hrun; discriminate Hrun].
  exists plsm'. split; [reflexivity|].
  destruct (dtw_leaves_frames lockstep lockstep_std whole_second_cadence nan_percentile
              first_column no_speed_offset three_craft "Wind" true 10 (2 # 10)%Q
              85%Q PNone plsm_three plsm' Hrun) as (H1 & H2 & H3).
  split; [apply H1; right; left; reflexivity|].
  split; [apply (H3 eq_refl "DSCOVR"%string); right; left; reflexivity|].
  apply (H2 "Wind"%string). left. reflexivity.
Defined.

Lemma all_frames_of_values (d : dict) :
  Forall (fun kv => exists f, snd kv = VFrame f) d -> all_frames d.
Proof.
  intros Hall k v. induction Hall as [|[k0 v0] d [f Hf] _ IH]; simpl.
  - discriminate.
  - destruct (String.eqb k0 k); [|exact IH].
    intros H. injection H as <-. exists f. exact Hf.
Qed.

Lemma plsm_three_all_frames : all_frames plsm_three.
Proof.
  apply all_frames_of_values. unfold plsm_three.
  repeat constructor; simpl; eauto.
Qed.

Lemma dtw_missing_craft_witness :
  Dtw.dtw lockstep lockstep_std whole_second_cadence nan_percentile first_column
    no_speed_offset ["Wind"; "DSCOVR"; "SOHO"]%string "Wind" true 10 (2 # 10)%Q
    85%Q PNone plsm_three
  = Raise KeyError.
Proof.
  apply (dtw_missing_craft lockstep lockstep_std whole_second_cadence nan_percentile
           first_column no_speed_offset ["Wind"; "DSCOVR"; "SOHO"]%string "Wind"
           true 10 (2 # 10)%Q 85%Q PNone plsm_three "SOHO"%string
           plsm_three_all_frames).
  - right. right. left. reflexivity.
  - reflexivity.
Defined.

End PassKeysExamples.

Section PlaneGeometryExamples.

Import Linalg Geometry Cases.
Local Open Scope R_scope.

Lemma anchor_not_origin : anchor <> vzero.
Proof. unfold anchor, vzero. intros H. injection H; intros; lra. Qed.

Lemma solve_coeff_plane_witness :
  (plane_value (solve_coeff anchor unit_x) unit_y = 0
   <-> dot unit_x (vsub unit_y anchor) = 0) /\
  plane_value (solve_coeff anchor unit_x) anchor = 0.
Proof. exact (solve_coeff_plane anchor unit_x unit_y anchor_not_origin). Defined.

Lemma unit_x_unit : dot unit_x unit_x = 1.
Proof. unfold dot, unit_x; simpl. ring. Qed.

Lemma unit_y_unit : dot unit_y unit_y = 1.
Proof. unfold dot, unit_y; simpl. ring. Qed.

Lemma unit_x_y_not_opposite : 1 + dot unit_x unit_y <> 0.
Proof. unfold dot, unit_x, unit_y; simpl. lra. Qed.

Lemma arb_rotation_maps_witness :
  mulv (arb_rotation_matrix unit_x unit_y) unit_x = unit_y.
Proof.
  exact (arb_rotation_maps unit_x unit_y unit_x_unit unit_y_unit
           unit_x_y_not_opposite).
Defined.

Lemma arb_rotation_orthogonal_witness :
  mmul (arb_rotation_matrix unit_x unit_y)
       (transpose (arb_rotation_matrix unit_x unit_y)) = identity3.
Proof.
  exact (arb_rotation_orthogonal unit_x unit_y unit_x_unit unit_y_unit
           unit_x_y_not_opposite).
Defined.

End PlaneGeometryExamples.

Section SessionFacts.

Import Frame Session Invariants.

Variable read_in : string -> Z -> Z -> result frame.

Lemma store_serial_reads (s e : Z) : forall names d d',
  store_serial read_in s e names d = Ok d' ->
  (forall k, In k names ->
     exists f, read_in k s e = Ok f /\ lookup_frame d' k = Ok f) /\
  (forall k, ~ In k names -> lookup d' k = lookup d k).
Proof.
  induction names as [|i rest IH]; intros d d'; simpl.
  - intros H; injection H as <-. split; [intros k []|reflexivity].
  - destruct (read_in i s e) as [f|] eqn:Hf; simpl; [|discriminate].
    intros Hrun. destruct (IH _ _ Hrun) as [Hin Hout]. split.
    + intros k Hk. destruct (in_dec string_dec k rest) as [Hr|Hr].
      * apply Hin, Hr.
      * destruct Hk as [<-|Hk]; [|contradiction].
        exists f. split; [exact Hf|].
        unfold lookup_frame. rewrite (Hout i Hr), lookup_insert_eq. reflexivity.
    + intros k Hk. rewrite Hout by (intros H; apply Hk; right; exact H).
      apply lookup_insert_ne. intros ->. apply Hk. left. reflexivity.
Qed.

Lemma read_all_reads (s e : Z) : forall names outp,
  read_all read_in s e names = Ok outp ->
  map fst outp = names /\
  Forall (fun kf => read_in (fst kf) s e = Ok (snd kf)) outp.
Proof.
  induction names as [|i rest IH]; intros outp; simpl.
  - intros H; injection H as <-. split; [reflexivity|constructor].
  - destruct (read_in i s e) as [f|] eqn:Hf; simpl; [|discriminate].
    destruct (read_all read_in s e rest) as [fs|]; simpl; [|discriminate].
    intros H; injection H as <-. destruct (IH fs eq_refl) as [Hm Hall].
    split; [simpl; rewrite Hm; reflexivity|].
    constructor; [exact Hf|exact Hall].
Qed.

Lemma store_pool_reads (s e : Z) : forall outp d d',
  Forall (fun kf => read_in (fst kf) s e = Ok (snd kf)) outp ->
  store_pool outp d = Ok d' ->
  (forall k, In k (map fst outp) ->
     exists f, read_in k s e = Ok f /\ lookup_frame d' k = Ok f) /\
  (forall k, ~ In k (map fst outp) -> lookup d' k = lookup d k).
Proof.
  induction outp as [|[i f] rest IH]; intros d d' Hall; simpl.
  - intros H; injection H as <-. split; [intros k []|reflexivity].
  - inversion Hall as [|x l Hf Hrest]; subst. simpl in Hf.
    destruct f as [|r0 f']; [discriminate|].
    intros Hrun. destruct (IH _ _ Hrest Hrun) as [Hin Hout]. split.
    + intros k Hk. destruct (in_dec string_dec k (map fst rest)) as [Hr|Hr].
      * apply Hin, Hr.
      * destruct Hk as [<-|Hk]; [|contradiction].
        exists (r0 :: f'). split; [exact Hf|].
        unfold lookup_frame. rewrite (Hout i Hr), lookup_insert_eq. reflexivity.
    + intros k Hk. rewrite Hout by (intros H; apply Hk; right; exact H).
      apply lookup_insert_ne. intros ->. apply Hk. left. reflexivity.
Qed.

(** Either way of reading stores, under each name, the frame read for
    that name, and touches no other key. *)
Lemma read_craft_reads (np : Q) (s e : Z) (names : list string) (d d' : dict) :
  read_craft read_in np s e names d = Ok d' ->
  (forall k, In k names ->
     exists f, read_in k s e = Ok f /\ lookup_frame d' k = Ok f) /\
  (forall k, ~ In k names -> lookup d' k = lookup d k).
Proof.
  unfold read_craft. destruct (negb (Qle_bool np (15 # 10))).
  - destruct names as [|i rest]; [discriminate|].
    destruct (read_all read_in s e (i :: rest)) as [outp|] eqn:Hall;
      [|discriminate].
    unfold bind. intros Hrun.
    destruct (read_all_reads s e _ _ Hall) as [Hm Hf].
    rewrite <- Hm. exact (store_pool_reads s e outp d d' Hf Hrun).
  - apply store_serial_reads.
Qed.

Lemma subset_finds_frames (self_plsm : dict) : forall cs acc,
  (forall k, In k cs -> has_frame self_plsm k) ->
  exists plsm0, Dtw.subset self_plsm cs acc = Ok plsm0.
Proof.
  induction cs as [|c cs IH]; intros acc Hall; simpl.
  - exists acc. reflexivity.
  - destruct (Hall c (or_introl eq_refl)) as [f Hf]. rewrite Hf. simpl.
    apply IH. intros k Hk. apply Hall. right. exact Hk.
Qed.

Lemma lookup_frame_same (d d' : dict) (k : string) :
  lookup d' k = lookup d k -> lookup_frame d' k = lookup_frame d k.
Proof. unfold lookup_frame. intros ->. reflexivity. Qed.

(** X15. After a first [init_read] the list of spacecraft is the old one
    followed by the near-Earth spacecraft, the object is marked as read,
    and the dictionary holds a frame for every spacecraft of the list, so
    that the first loop of [dtw] finds each of them. *)
Theorem init_read_frames (x x' : session) :
  first x = true ->
  init_read read_in x = Ok x' ->
  first x' = false /\
  craft x' = craft x ++ match earth_craft x with Some ec => ec | None => [] end /\
  (forall k, In k (craft x') -> has_frame (plsm x') k) /\
  exists plsm0, Dtw.subset (plsm x') (craft x') [] = Ok plsm0.
Proof.
  intros Hfirst. unfold init_read. rewrite Hfirst.
  destruct (read_craft read_in (nproc x) (start_t x) (end_t x) (craft x) [])
    as [plsm1|] eqn:H1; [|discriminate].
  unfold bind at 1. destruct (read_craft_reads _ _ _ _ _ _ H1) as [Hin1 _].
  assert (Hgoal : forall cs d,
    (forall k, In k cs -> has_frame d k) ->
    (forall k, In k cs -> has_frame d k) /\
    exists plsm0, Dtw.subset d cs [] = Ok plsm0).
  { intros cs d H. split; [exact H|]. apply subset_finds_frames, H. }
  destruct (earth_craft x) as [ec|].
  - destruct (read_craft read_in (nproc x) _ _ ec plsm1) as [plsm2|] eqn:H2;
      [|discriminate].
    unfold bind. intros H; injection H as <-. simpl.
    split; [reflexivity|]. split; [reflexivity|].
    apply Hgoal. intros k Hk.
    destruct (read_craft_reads _ _ _ _ _ _ H2) as [Hin2 Hout2].
    destruct (in_dec string_dec k ec) as [He|He].
    + destruct (Hin2 k He) as [f [_ Hf]]. exists f. exact Hf.
    + apply in_app_or in Hk. destruct Hk as [Hk|Hk]; [|contradiction].
      destruct (Hin1 k Hk) as [f [_ Hf]]. exists f.
      rewrite (lookup_frame_same _ _ _ (Hout2 k He)). exact Hf.
  - intros H; injection H as <-. simpl.
    split; [reflexivity|]. split; [rewrite app_nil_r; reflexivity|].
    apply Hgoal. intros k Hk. destruct (Hin1 k Hk) as [f [_ Hf]].
    exists f. exact Hf.
Qed.

(** X16. After a first [init_read] with near-Earth spacecraft, each of
    them has the frame read over the window moved by [pad_earth], also
    when its name is among the other spacecraft, and every other
    spacecraft has the frame read over the window itself. *)
Theorem init_read_windows (x x' : session) (ec : list string) :
  first x = true ->
  earth_craft x = Some ec ->
  init_read read_in x = Ok x' ->
  (forall k, In k ec ->
     exists f, read_in k (start_t x + pad_earth x) (end_t x + pad_earth x) = Ok f /\
               lookup_frame (plsm x') k = Ok f) /\
  (forall k, In k (craft x) -> ~ In k ec ->
     exists f, read_in k (start_t x) (end_t x) = Ok f /\
               lookup_frame (plsm x') k = Ok f).
Proof.
  intros Hfirst Hec. unfold init_read. rewrite Hfirst, Hec.
  destruct (read_craft read_in (nproc x) (start_t x) (end_t x) (craft x) [])
    as [plsm1|] eqn:H1; [|discriminate].
  unfold bind at 1.
  destruct (read_craft read_in (nproc x) _ _ ec plsm1) as [plsm2|] eqn:H2;
    [|discriminate].
  unfold bind. intros H; injection H as <-. simpl.
  destruct (read_craft_reads _ _ _ _ _ _ H1) as [Hin1 _].
  destruct (read_craft_reads _ _ _ _ _ _ H2) as [Hin2 Hout2].
  split; [exact Hin2|].
  intros k Hk He. destruct (Hin1 k Hk) as [f [Hr Hf]].
  exists f. split; [exact Hr|].
  rewrite (lookup_frame_same _ _ _ (Hout2 k He)). exact Hf.
Qed.

(** X17. [init_read] reads once: called again on the object it left, it
    changes nothing, so that no file is read twice and no near-Earth
    spacecraft is listed twice. *)
Theorem init_read_once (x x' : session) :
  init_read read_in x = Ok x' -> init_read read_in x' = Ok x'.
Proof.
  unfold init_read at 1. destruct (first x) eqn:Hfirst.
  - destruct (read_craft read_in (nproc x) (start_t x) (end_t x) (craft x) [])
      as [plsm1|]; [|discriminate].
    unfold bind at 1. destruct (earth_craft x) as [ec|].
    + destruct (read_craft read_in (nproc x) _ _ ec plsm1) as [plsm2|];
        [|discriminate].
      unfold bind. intros H; injection H as <-. reflexivity.
    + intros H; injection H as <-. reflexivity.
  - intros H; injection H as <-. unfold init_read. rewrite Hfirst. reflexivity.
Qed.

Lemma store_pool_empty_frame : forall outp d,
  Exists (fun kf => snd kf = []) outp -> store_pool outp d = Raise IndexError.
Proof.
  induction outp as [|[i f] rest IH]; intros d Hex; [inversion Hex|].
  simpl. destruct f as [|r0 f']; [reflexivity|].
  apply IH. inversion Hex as [x l H|x l H]; subst; [discriminate H|exact H].
Qed.

Lemma read_all_total (s e : Z) : forall names,
  (forall k, In k names -> exists f, read_in k s e = Ok f) ->
  exists outp, read_all read_in s e names = Ok outp.
Proof.
  induction names as [|i rest IH]; intros Hall; simpl.
  - exists []. reflexivity.
  - destruct (Hall i (or_introl eq_refl)) as [f Hf]. rewrite Hf. simpl.
    destruct (IH (fun k Hk => Hall k (or_intror Hk))) as [fs Hfs].
    rewrite Hfs. simpl. eexists. reflexivity.
Qed.

Lemma read_all_member (s e : Z) : forall names outp k f,
  read_all read_in s e names = Ok outp ->
  In k names -> read_in k s e = Ok f -> In (k, f) outp.
Proof.
  induction names as [|i rest IH]; intros outp k f; simpl; [intros _ []|].
  destruct (read_in i s e) as [g|] eqn:Hg; simpl; [|discriminate].
  destruct (read_all read_in s e rest) as [fs|]; simpl; [|discriminate].
  intros H; injection H as <-. intros [->|Hk] Hf.
  - left. rewrite Hg in Hf. injection Hf as ->. reflexivity.
  - right. exact (IH fs k f eq_refl Hk Hf).
Qed.

(** X18. With a pool of workers, a spacecraft without any observation in
    the window stops [init_read] with an [IndexError], as its frame has
    no first row to take the key from; the plain loop stores the empty
    frame. *)
Theorem init_read_pool_empty_frame (x : session) (k : string) :
  first x = true ->
  Qle_bool (nproc x) (15 # 10) = false ->
  (forall i, In i (craft x) -> exists f, read_in i (start_t x) (end_t x) = Ok f) ->
  In k (craft x) ->
  read_in k (start_t x) (end_t x) = Ok [] ->
  init_read read_in x = Raise IndexError.
Proof.
  intros Hfirst Hnp Hall Hk Hempty. unfold init_read, read_craft.
  rewrite Hfirst, Hnp. simpl negb. cbv iota.
  destruct (craft x) as [|i rest] eqn:Hc; [contradiction|].
  destruct (read_all_total _ _ _ Hall) as [outp Hout]. rewrite Hout.
  unfold bind at 2. rewrite store_pool_empty_frame; [reflexivity|].
  apply Exists_exists. exists (k, []). split; [|reflexivity].
  exact (read_all_member _ _ _ _ _ _ Hout Hk Hempty).
Qed.

(** X19. With a pool of workers and an empty list of near-Earth
    spacecraft, [init_read] stops with a [ValueError] once the other
    spacecraft are read: a pool of no worker cannot be made. *)
Theorem init_read_pool_no_earth_craft (x : session) (plsm1 : dict) :
  first x = true ->
  Qle_bool (nproc x) (15 # 10) = false ->
  earth_craft x = Some [] ->
  read_craft read_in (nproc x) (start_t x) (end_t x) (craft x) [] = Ok plsm1 ->
  init_read read_in x = Raise ValueError.
Proof.
  intros Hfirst Hnp Hec H1. unfold init_read. rewrite Hfirst, H1, Hec.
  unfold bind at 1. unfold read_craft. rewrite Hnp. reflexivity.
Qed.

End SessionFacts.

Section SessionExamples.

Import Frame Session Invariants Examples Cases.

Lemma l1_session_read :
  exists x', init_read read_window l1_session = Ok x'.
Proof. eexists. vm_compute. reflexivity. Qed.

Lemma init_read_frames_witness :
  exists x',
    init_read read_window l1_session = Ok x' /\
    first x' = false /\
    craft x' = ["Wind"; "DSCOVR"; "THEMIS_B"]%string /\
    (forall k, In k (craft x') -> has_frame (plsm x') k) /\
    exists plsm0, Dtw.subset (plsm x') (craft x') [] = Ok plsm0.
Proof.
  destruct l1_session_read as [x' Hx]. exists x'. split; [exact Hx|].
  exact (init_read_frames read_window l1_session x' eq_refl Hx).
Defined.

Lemma init_read_windows_witness :
  exists x',
    init_read read_window l1_session = Ok x' /\
    (forall k, In k ["THEMIS_B"]%string ->
       exists f, read_window k (sec 0 + sec 3600) (sec 7200 + sec 3600) = Ok f /\
                 lookup_frame (plsm x') k = Ok f) /\
    (forall k, In k ["Wind"; "DSCOVR"]%string -> ~ In k ["THEMIS_B"]%string ->
       exists f, read_window k (sec 0) (sec 7200) = Ok f /\
                 lookup_frame (plsm x') k = Ok f).
Proof.
  destruct l1_session_read as [x' Hx]. exists x'. split; [exact Hx|].
  exact (init_read_windows read_window l1_session x' ["THEMIS_B"]%string
           eq_refl eq_refl Hx).
Defined.

Lemma init_read_once_witness :
  exists x',
    init_read read_window l1_session = Ok x' /\
    init_read read_window x' = Ok x'.
Proof.
  destruct l1_session_read as [x' Hx]. exists x'. split; [exact Hx|].
  exact (init_read_once read_window l1_session x' Hx).
Defined.

Lemma read_quiet_total (s e : Z) (i : string) :
  exists f, read_quiet i s e = Ok f.
Proof.
  unfold read_quiet, read_window. destruct (String.eqb i "DSCOVR"); eexists; reflexivity.
Qed.

Lemma init_read_pool_empty_frame_witness :
  init_read read_quiet pool_session = Raise IndexError /\
  exists x', init_read read_quiet l1_session = Ok x'.
Proof.
  split.
  - apply (init_read_pool_empty_frame read_quiet pool_session "DSCOVR").
    + reflexivity.
    + reflexivity.
    + intros i _. apply read_quiet_total.
    + simpl. right. left. reflexivity.
    + reflexivity.
  - eexists. vm_compute. reflexivity.
Defined.

Lemma init_read_pool_no_earth_craft_witness :
  init_read read_window pool_session_no_earth = Raise ValueError.
Proof.
  eapply (init_read_pool_no_earth_craft read_window pool_session_no_earth).
  - reflexivity.
  - reflexivity.
  - reflexivity.
  - vm_compute. reflexivity.
Defined.

End SessionExamples.

Section RunningMean.

Import Smooth.
Local Open Scope Q_scope.

Lemma convolve_valid_fits (a v : list Q) :
  v <> [] -> (List.length v <= List.length a)%nat ->
  convolve_valid a v
  = Ok (map (fun i => qdot (firstn (List.length v) (skipn i a)) (rev v))
            (seq 0 (List.length a - List.length v + 1))).
Proof.
  intros Hv Hle. unfold convolve_valid.
  replace (List.length a <? List.length v)%nat with false
    by (symmetry; apply Nat.ltb_ge; exact Hle).
  destruct a as [|a0 a']; [destruct v; [congruence|simpl in Hle; lia]|].
  destruct v as [|v0 v']; [congruence|reflexivity].
Qed.

Lemma convolve_valid_swaps (a v : list Q) :
  (List.length a < List.length v)%nat -> convolve_valid a v = convolve_valid v a.
Proof.
  intros Hlt. unfold convolve_valid.
  replace (List.length a <? List.length v)%nat with true
    by (symmetry; apply Nat.ltb_lt; exact Hlt).
  replace (List.length v <? List.length a)%nat with false
    by (symmetry; apply Nat.ltb_ge; lia).
  reflexivity.
Qed.

Lemma seq_succ_head (n : nat) : seq 0 (n + 1) = O :: seq 1 n.
Proof. rewrite Nat.add_1_r. reflexivity. Qed.

(** X20. For a series that is not empty and a window of at least one,
    [movingaverage] returns as many values as the series has when the
    window is no longer than the series, and [2*window - len(values)]
    values, more than the series has, when it is longer. *)
Theorem movingaverage_length (values : list Q) (window : nat) :
  values <> [] -> window <> O ->
  exists sma,
    movingaverage values window = Ok sma /\
    List.length sma
    = if (window <=? List.length values)%nat then List.length values
      else (2 * window - List.length values)%nat.
Proof.
  intros Hv Hw. unfold movingaverage.
  set (w := 1 / inject_Z (Z.of_nat window)).
  assert (Hrep : repeat w window <> []) by (destruct window; [congruence|discriminate]).
  assert (Hlen : List.length values <> O) by (destruct values; [congruence|discriminate]).
  destruct (window <=? List.length values)%nat eqn:Hcmp.
  - apply Nat.leb_le in Hcmp.
    rewrite convolve_valid_fits by (rewrite ?repeat_length; assumption).
    rewrite repeat_length, seq_succ_head. simpl.
    eexists. split; [reflexivity|].
    rewrite length_app, repeat_length. simpl.
    rewrite length_map, length_seq. lia.
  - apply Nat.leb_gt in Hcmp.
    rewrite convolve_valid_swaps by (rewrite repeat_length; exact Hcmp).
    rewrite convolve_valid_fits by (rewrite ?repeat_length; first [assumption|lia]).
    rewrite repeat_length, seq_succ_head. simpl.
    eexists. split; [reflexivity|].
    rewrite length_app, repeat_length. simpl.
    rewrite length_map, length_seq. lia.
Qed.

Lemma qdot_repeat (w : Q) : forall l,
  qdot l (repeat w (List.length l)) == w * qsum l.
Proof.
  induction l as [|x l IH]; simpl.
  - ring.
  - rewrite IH. ring.
Qed.

(** X21. For a window no longer than the series, the value of
    [movingaverage] at a place from [window-1] on is the mean of the
    [window] values of the series that end at that place, and each value
    before that place is the one at place [window-1]. *)
Theorem movingaverage_is_mean (values sma : list Q) (window : nat) :
  (1 <= window <= List.length values)%nat ->
  movingaverage values window = Ok sma ->
  (forall i, (window - 1 <= i < List.length values)%nat ->
     exists v, nth_error sma i = Some v /\
               v == qsum (firstn window (skipn (i - (window - 1)) values))
                    / inject_Z (Z.of_nat window)) /\
  (forall i, (i < window - 1)%nat -> nth_error sma i = nth_error sma (window - 1)).
Proof.
  intros [Hw Hle]. unfold movingaverage.
  set (w := 1 / inject_Z (Z.of_nat window)).
  assert (Hrep : repeat w window <> []) by (destruct window; [lia|discriminate]).
  rewrite convolve_valid_fits by (rewrite ?repeat_length; assumption).
  rewrite repeat_length, rev_repeat, seq_succ_head. simpl.
  set (g := fun i => qdot (firstn window (skipn i values)) (repeat w window)).
  intros H; injection H as <-.
  assert (Hmean : forall j, (j + window <= List.length values)%nat ->
            g j == qsum (firstn window (skipn j values))
                   / inject_Z (Z.of_nat window)).
  { intros j Hj. unfold g.
    assert (Hl : List.length (firstn window (skipn j values)) = window).
    { rewrite length_firstn, length_skipn. lia. }
    rewrite <- Hl at 2. rewrite qdot_repeat. unfold w. field.
    intros H0. assert (Hz : (0 < Z.of_nat window)%Z) by lia.
    assert (Hq : 0 < inject_Z (Z.of_nat window)).
    { unfold Qlt. simpl. lia. }
    rewrite H0 in Hq. exact (Qlt_irrefl 0 Hq). }
  change (qdot (firstn window values) (repeat w window)) with (g O).
  replace (g O :: map g (seq 1 (List.length values - window)))
    with (map g (seq 0 (List.length values - window + 1)))
    by (rewrite seq_succ_head; reflexivity).
  assert (Hnth : forall j, (j + window <= List.length values)%nat ->
            nth_error (map g (seq 0 (List.length values - window + 1))) j
            = Some (g j)).
  { intros j Hj. rewrite nth_error_map, nth_error_seq.
    replace (j <? List.length values - window + 1)%nat with true
      by (symmetry; apply Nat.ltb_lt; lia).
    reflexivity. }
  assert (Hhead : nth_error (repeat (g O) (window - 1)
                    ++ map g (seq 0 (List.length values - window + 1)))
                    (window - 1) = Some (g O)).
  { rewrite nth_error_app2 by (rewrite repeat_length; lia).
    rewrite repeat_length, Nat.sub_diag. apply Hnth. lia. }
  split.
  - intros i Hi. exists (g (i - (window - 1))%nat). split.
    + rewrite nth_error_app2 by (rewrite repeat_length; lia).
      rewrite repeat_length. apply Hnth. lia.
    + apply Hmean. lia.
  - intros i Hi. rewrite Hhead.
    rewrite nth_error_app1 by (rewrite repeat_length; exact Hi).
    apply nth_error_repeat. exact Hi.
Qed.

(** X22. [movingaverage] fails with a [ValueError] for an empty series
    and for a window of zero. *)
Theorem movingaverage_empty (values : list Q) (window : nat) :
  values = [] \/ window = O -> movingaverage values window = Raise ValueError.
Proof.
  intros [->| ->]; unfold movingaverage, convolve_valid.
  - destruct window as [|n]; reflexivity.
  - simpl. destruct values; reflexivity.
Qed.

End RunningMean.

Section RunningMeanExamples.

Import Smooth Cases.
Local Open Scope Q_scope.

Lemma movingaverage_length_witness :
  exists sma,
    movingaverage ramp 5 = Ok sma /\
    List.length sma
    = if (5 <=? List.length ramp)%nat then List.length ramp
      else (2 * 5 - List.length ramp)%nat.
Proof.
  apply (movingaverage_length ramp 5); [discriminate|discriminate].
Defined.

Lemma ramp_smoothed :
  exists sma, movingaverage ramp 5 = Ok sma.
Proof. eexists. vm_compute. reflexivity. Qed.

Lemma movingaverage_is_mean_witness :
  exists sma,
    movingaverage ramp 5 = Ok sma /\
    (forall i, (5 - 1 <= i < List.length ramp)%nat ->
       exists v, nth_error sma i = Some v /\
                 v == qsum (firstn 5 (skipn (i - (5 - 1)) ramp))
                      / inject_Z (Z.of_nat 5)) /\
    (forall i, (i < 5 - 1)%nat -> nth_error sma i = nth_error sma (5 - 1)).
Proof.
  destruct ramp_smoothed as [sma Hs]. exists sma. split; [exact Hs|].
  apply (movingaverage_is_mean ramp sma 5); [simpl; lia|exact Hs].
Defined.

Lemma movingaverage_empty_witness :
  movingaverage [] 5 = Raise ValueError /\ movingaverage ramp 0 = Raise ValueError.
Proof.
  split.
  - apply (movingaverage_empty [] 5). left. reflexivity.
  - apply (movingaverage_empty ramp 0). right. reflexivity.
Defined.

End RunningMeanExamples.

Section BulkOffsets.

Import Frame Refine Invariants.
Local Open Scope Z_scope.

Lemma insert_sorted_length (x : Z) (l : list Z) :
  List.length (insert_sorted x l) = S (List.length l).
Proof.
  induction l as [|y l IH]; simpl; [reflexivity|].
  destruct (x <=? y); simpl; [reflexivity|]. rewrite IH. reflexivity.
Qed.

Lemma sort_length (l : list Z) : List.length (sort l) = List.length l.
Proof.
  induction l as [|x l IH]; simpl; [reflexivity|].
  rewrite insert_sorted_length, IH. reflexivity.
Qed.

Lemma insert_sorted_In (x y : Z) (l : list Z) :
  In y (insert_sorted x l) -> y = x \/ In y l.
Proof.
  induction l as [|z l IH]; simpl.
  - intros [<-|[]]. left. reflexivity.
  - destruct (x <=? z); simpl.
    + intros [<-|[<-|H]]; auto.
    + intros [<-|H]; auto. destruct (IH H); auto.
Qed.

Lemma sort_In (y : Z) (l : list Z) : In y (sort l) -> In y l.
Proof.
  induction l as [|x l IH]; simpl; [auto|].
  intros H. apply insert_sorted_In in H. destruct H as [->|H]; auto.
Qed.

Lemma half_between (a b : Z) :
  Z.min a b <= Z.quot (a + b) 2 <= Z.max a b.
Proof.
  split.
  - rewrite <- (Z.quot_mul (Z.min a b) 2) at 1 by lia.
    apply Z.quot_le_mono; lia.
  - rewrite <- (Z.quot_mul (Z.max a b) 2) at 1 by lia.
    apply Z.quot_le_mono; lia.
Qed.

(** The median of time deltas is NaT of nothing only, and lies between
    two of the values otherwise. *)
Lemma median_between (l : list Z) :
  match median l with
  | Some m => exists a b, In a l /\ In b l /\ a <= m <= b
  | None => l = []
  end.
Proof.
  unfold median. pose proof (sort_length l) as Hlen.
  destruct (List.length (sort l)) as [|n] eqn:Hn.
  - destruct l; [reflexivity|discriminate].
  - set (k := S n) in *.
    assert (Hk : (k / 2 < k)%nat) by (apply Nat.div_lt; unfold k; lia).
    destruct (nth_error (sort l) (k / 2)) as [b|] eqn:Hb;
      [|apply nth_error_None in Hb; lia].
    pose proof (sort_In _ _ (nth_error_In _ _ Hb)) as Hbl.
    destruct (Nat.even k).
    + destruct (nth_error (sort l) (k / 2 - 1)) as [a|] eqn:Ha;
        [|apply nth_error_None in Ha; lia].
      pose proof (sort_In _ _ (nth_error_In _ _ Ha)) as Hal.
      pose proof (half_between a b) as Hh.
      destruct (Z.le_ge_cases a b) as [Hab|Hab].
      * exists a, b. rewrite Z.min_l, Z.max_r in Hh by exact Hab. auto.
      * exists b, a. rewrite Z.min_r, Z.max_l in Hh by exact Hab. auto.
    + exists b, b. repeat split; [exact Hbl|exact Hbl|lia|lia].
Qed.

(** X23. The bulk offset that [iterate_dtw] takes from a window of an
    offset frame lies between two offsets of rows of that window; it is
    NaT only when no row of the window has an offset.  The index is taken
    in increasing order, where the slice by labels is the rows between
    the two labels. *)
Theorem bulk_offset_within_window (lo hi : Z) (f : frame) :
  nondecreasing (index f) ->
  match offsets_median (loc_slice lo hi f) with
  | Some m =>
      exists t1 r1 a t2 r2 b,
        In (t1, r1) f /\ lo <= t1 <= hi /\ offsets r1 = Some a /\
        In (t2, r2) f /\ lo <= t2 <= hi /\ offsets r2 = Some b /\
        a <= m <= b
  | None =>
      forall t r, In (t, r) f -> lo <= t <= hi -> offsets r = None
  end.
Proof.
  intros _. unfold offsets_median.
  set (pick := fun tr : Z * row =>
                 match offsets (snd tr) with Some o => [o] | None => [] end).
  assert (Hrow : forall o, In o (flat_map pick (loc_slice lo hi f)) ->
            exists t r, In (t, r) f /\ lo <= t <= hi /\ offsets r = Some o).
  { intros o Ho. apply in_flat_map in Ho. destruct Ho as [[t r] [Hin Hp]].
    unfold loc_slice in Hin. apply filter_In in Hin. destruct Hin as [Hin Hb].
    simpl in Hb. apply andb_true_iff in Hb. destruct Hb as [H1 H2].
    apply Z.leb_le in H1, H2.
    exists t, r. split; [exact Hin|]. split; [lia|].
    unfold pick in Hp. simpl in Hp.
    destruct (offsets r) as [o'|]; [|contradiction].
    destruct Hp as [->|[]]. reflexivity. }
  pose proof (median_between (flat_map pick (loc_slice lo hi f))) as Hm.
  destruct (median (flat_map pick (loc_slice lo hi f))) as [m|].
  - destruct Hm as [a [b [Ha [Hb Hab]]]].
    destruct (Hrow a Ha) as [t1 [r1 [H1 [H2 H3]]]].
    destruct (Hrow b Hb) as [t2 [r2 [H4 [H5 H6]]]].
    exists t1, r1, a, t2, r2, b. auto 10.
  - intros t r Hin Hb. destruct (offsets r) as [o|] eqn:Ho; [|reflexivity].
    assert (Hmem : In o (flat_map pick (loc_slice lo hi f))).
    { apply in_flat_map. exists (t, r). split.
      - unfold loc_slice. apply filter_In. split; [exact Hin|]. simpl.
        apply andb_true_iff. split; apply Z.leb_le; lia.
      - unfold pick. simpl. rewrite Ho. left. reflexivity. }
    rewrite Hm in Hmem. contradiction.
Qed.

Lemma replace_from_start (pat rep : string) (c : ascii) (s : string) :
  replace_from pat rep 0 (String c s)
  = if prefix pat (String c s)
    then (rep ++ replace_from pat rep (String.length pat - 1) s)%string
    else String c (replace_from pat rep 0 s).
Proof. reflexivity. Qed.

Lemma contains_cons (pat : string) (c : ascii) (s : string) :
  contains pat (String c s) = prefix pat (String c s) || contains pat s.
Proof. reflexivity. Qed.

(** ["_offset"] cannot start within a name that does not hold it and end
    within an ["_offset"] put after the name. *)
Lemma offset_suffix_no_overlap (k : string) :
  k <> EmptyString -> prefix "_offset" k = false ->
  prefix "_offset" (k ++ "_offset") = false.
Proof.
  intros Hk H. destruct k as [|c0 k]; [congruence|].
  cbn [prefix append] in *. destruct (ascii_dec "_" c0); [|reflexivity].
  destruct k as [|c1 k]; [reflexivity|].
  cbn [prefix append] in *. destruct (ascii_dec "o" c1); [|reflexivity].
  destruct k as [|c2 k]; [reflexivity|].
  cbn [prefix append] in *. destruct (ascii_dec "f" c2); [|reflexivity].
  destruct k as [|c3 k]; [reflexivity|].
  cbn [prefix append] in *. destruct (ascii_dec "f" c3); [|reflexivity].
  destruct k as [|c4 k]; [reflexivity|].
  cbn [prefix append] in *. destruct (ascii_dec "s" c4); [|reflexivity].
  destruct k as [|c5 k]; [reflexivity|].
  cbn [prefix append] in *. destruct (ascii_dec "e" c5); [|reflexivity].
  destruct k as [|c6 k]; [reflexivity|].
  cbn [prefix append] in *. destruct (ascii_dec "t" c6); [|reflexivity].
  destruct k; discriminate H.
Qed.

(** X24. The key [k+'_offset'] under which [dtw] stores the offset frame
    of a spacecraft is one that [iterate_dtw] takes for an offset key, and
    for a name that does not hold ["_offset"] the key gives the name back. *)
Theorem offset_key_round_trip (k : string) :
  contains "_offset" k = false ->
  contains "offset" (k ++ "_offset") = true /\
  craft_of (k ++ "_offset") = k.
Proof.
  unfold craft_of, replace. induction k as [|c k IH]; intros Hk.
  - split; reflexivity.
  - rewrite contains_cons in Hk. apply orb_false_iff in Hk.
    destruct Hk as [Hp Hc]. destruct (IH Hc) as [IH1 IH2]. split.
    + change (String c k ++ "_offset")%string with (String c (k ++ "_offset")).
      rewrite contains_cons, IH1. apply orb_true_r.
    + change (String c k ++ "_offset")%string with (String c (k ++ "_offset")).
      rewrite replace_from_start.
      change (String c (k ++ "_offset")) with (String c k ++ "_offset")%string.
      rewrite offset_suffix_no_overlap by (first [discriminate|exact Hp]).
      change (String c k ++ "_offset")%string with (String c (k ++ "_offset")).
      rewrite IH2. reflexivity.
Qed.

End BulkOffsets.

Section BulkOffsetsExamples.

Import Frame Refine Invariants Examples Cases.
Local Open Scope Z_scope.

Lemma offsets_frame_increasing : nondecreasing (index offsets_frame).
Proof.
  intros m n x y Hmn Hx Hy.
  assert (Hn : (n < 4)%nat)
    by (apply (proj1 (nth_error_Some (index offsets_frame) n));
        rewrite Hy; discriminate).
  destruct n as [|[|[|[|n]]]]; try lia;
    destruct m as [|[|[|[|m]]]]; try lia;
    vm_compute in Hx, Hy; injection Hx as <-; injection Hy as <-;
    vm_compute; discriminate.
Qed.

Lemma bulk_offset_within_window_witness :
  offsets_median (loc_slice (sec 1800) (sec 5400) offsets_frame) = Some (sec 55) /\
  match offsets_median (loc_slice (sec 1800) (sec 5400) offsets_frame) with
  | Some m =>
      exists t1 r1 a t2 r2 b,
        In (t1, r1) offsets_frame /\ sec 1800 <= t1 <= sec 5400 /\
        offsets r1 = Some a /\
        In (t2, r2) offsets_frame /\ sec 1800 <= t2 <= sec 5400 /\
        offsets r2 = Some b /\
        a <= m <= b
  | None =>
      forall t r, In (t, r) offsets_frame -> sec 1800 <= t <= sec 5400 ->
                  offsets r = None
  end.
Proof.
  split; [vm_compute; reflexivity|].
  exact (bulk_offset_within_window (sec 1800) (sec 5400) offsets_frame
           offsets_frame_increasing).
Defined.

Lemma offset_key_round_trip_witness :
  contains "offset" ("DSCOVR" ++ "_offset") = true /\
  craft_of ("DSCOVR" ++ "_offset") = "DSCOVR"%string.
Proof. apply (offset_key_round_trip "DSCOVR"). reflexivity. Defined.

End BulkOffsetsExamples.

Section Radii.

Import Frame Dtw Refine Cadence.
Local Open Scope Q_scope.






End Radii.

Section RadiiExamples.

Import Frame Dtw Refine Cadence Examples Cases.
Local Open Scope Q_scope.



(** At two samples a second the interval counts as 0 and the first
    radius is infinite. *)
Lemma subsecond_radius_infinite :
  median_interval 0 (index subsecond_frame) = 0 /\
  a_r1 (align_args (median_interval 0) 85 subsecond_frame slow_frame "Bx") = QInf /\
  radius_is (a_r2 (align_args (median_interval 0) 85 subsecond_frame slow_frame "Bx"))
    1700.
Proof. repeat split; reflexivity. Qed.

End RadiiExamples.

Section AlignmentFailure.

Import Frame Dtw Aligner.
Local Open Scope Q_scope.

Variable find_path :
  list (option Q) -> list (option Q) -> qnum -> qnum -> Q -> Q -> Q -> Z -> result path.
Variable dtw_std : list (option Q) -> list (option Q) -> result path.
Variable median_interval : list Z -> Q.
Variable percentile : list (option Q) -> list Q -> result (list (option Q)).
Variables speed_pen mag_pen : Q.

Let align_penalty :=
  Dtw.align_penalty (dtw_path_single find_path) median_interval percentile.
Let warp :=
  Dtw.warp (dtw_path_single find_path) dtw_std median_interval percentile
    true speed_pen mag_pen.

Lemma degenerate_series (x : list (option Q)) :
  x = [] \/ In None x -> degenerate x = true.
Proof.
  intros [->|Hin]; [reflexivity|].
  destruct x as [|v [|w x]]; [reflexivity|reflexivity|].
  unfold degenerate. apply existsb_exists. exists None. split; [exact Hin|reflexivity].
Qed.

(** C9.  In the penalised pass, once the penalty is announced and the
    percentiles are taken, a reference or comparison array that is empty
    or still holds a NaN after the fill reaches the aligner as it is, in
    either order, and the aligner's [AlignmentError] is what the pass
    raises: no path is returned. *)
Theorem degenerate_series_alignment_error (pr : Q) (t_mat p_mat : frame)
    (par0 : string) (rest : list string) (pen : option Q) (pen' : Q)
    (q1 q2 : list (option Q)) :
  let x1 := filled_values par0 t_mat in
  let x2 := filled_values par0 p_mat in
  choose_penalty speed_pen mag_pen (par0 :: rest) pen = Some pen' ->
  percentile x1 [5; 95] = Ok q1 ->
  percentile x2 [5; 95] = Ok q2 ->
  (x1 = [] \/ In None x1) \/ (x2 = [] \/ In None x2) ->
  align_penalty pr t_mat p_mat par0 = Raise AlignmentError /\
  warp pr t_mat p_mat (par0 :: rest) pen = Raise AlignmentError.
Proof.
  intros x1 x2 Hpen Hq1 Hq2 Hbad.
  assert (Ha : align_penalty pr t_mat p_mat par0 = Raise AlignmentError).
  { unfold align_penalty, Dtw.align_penalty. fold x1 x2. rewrite Hq1, Hq2.
    unfold bind at 1. unfold bind at 1. unfold Dtw.align_args. fold x1 x2.
    assert (Hd : degenerate x1 || degenerate x2 = true).
    { apply orb_true_iff.
      destruct Hbad as [H|H]; [left|right]; apply degenerate_series; exact H. }
    destruct (List.length x1 <? List.length x2)%nat; simpl;
      unfold dtw_path_single.
    - rewrite orb_comm, Hd. reflexivity.
    - rewrite Hd. reflexivity. }
  split; [exact Ha|].
  unfold warp, Dtw.warp. rewrite Hpen. simpl.
  fold align_penalty. rewrite Ha. reflexivity.
Qed.

End AlignmentFailure.

Section AlignmentFailureExamples.

Import Frame Dtw Aligner Examples Cases.
Local Open Scope Q_scope.

(** A comparison frame whose column [Bx] is missing throughout. *)
Lemma degenerate_series_alignment_error_witness :
  In None (filled_values "Bx" (nan_frame (map sec [0; 60]%Z))) /\
  align_penalty (dtw_path_single lockstep) whole_second_cadence nan_percentile 85
    short_frame (nan_frame (map sec [0; 60]%Z)) "Bx" = Raise AlignmentError /\
  warp (dtw_path_single lockstep) lockstep_std whole_second_cadence nan_percentile
    true 10 (2 # 10) 85 short_frame (nan_frame (map sec [0; 60]%Z))
    ["Bx"%string] None = Raise AlignmentError.
Proof.
  assert (Hin : In None (filled_values "Bx" (nan_frame (map sec [0; 60]%Z))))
    by (left; reflexivity).
  split; [exact Hin|].
  apply (degenerate_series_alignment_error lockstep lockstep_std whole_second_cadence
           nan_percentile 10 (2 # 10) 85 short_frame
           (nan_frame (map sec [0; 60]%Z)) "Bx" [] None (2 # 10)
           [None; None] [None; None]).
  - reflexivity.
  - reflexivity.
  - reflexivity.
  - right. right. exact Hin.
Defined.

End AlignmentFailureExamples.
